(** * Reload machinery of src/utils/reloads.py

    A shallow embedding of the module-reload safety classifier, the
    reload cycle with its cache cascade, the entity reset loop and the
    MUDinfo reporter [cemit_info], followed by the properties proved
    about them. *)

From Stdlib Require Import ZArith String Ascii List Bool Lia.
From Stdlib Require Import DecimalString.
From stdpp Require Import gmap strings list.

Open Scope string_scope.
Open Scope list_scope.
Open Scope Z_scope.

(** ** Python primitives used by the module *)

(** [s.startswith(p)] *)
Definition startswith (s p : string) : bool := String.prefix p s.

(** [x in l] on a list of strings (comparison with [==]). *)
Definition py_in (x : string) (l : list string) : bool :=
  existsb (String.eqb x) l.

(** [list(set(l))]: the distinct elements of [l]; the order of a Python
    set is unspecified and nothing below depends on it. *)
Definition list_set (l : list string) : list string :=
  elements (list_to_set l : gset string).

(** ** Script rows, as far as the classifier reads them *)

Record ScriptDB := mkScript {
  dbref : Z;
  interval : Z;
  typeclass_path : option string;   (* None: the column is NULL *)
  is_active : bool                  (* whether the script is running *)
}.

(** Truth value of [scriptobj.typeclass_path]. *)
Definition path_truthy (p : option string) : bool :=
  match p with
  | Some (String _ _) => true
  | _ => false
  end.

Definition path_text (p : option string) : string :=
  match p with Some s => s | None => "" end.

(** ** The safety classifier (reload_modules, lines 37-56 and 69-73) *)

Definition protected_dirs : list string := ["src."].
Definition except_dirs : list string := ["src.commands.default."].

(** Lines 45-48: the loop collecting the typeclass paths of timed scripts. *)
Definition collect_unsafe (scripts : list ScriptDB) : list string :=
  fold_left
    (λ acc scriptobj,
       if (interval scriptobj >? -1) && path_truthy (typeclass_path scriptobj)
       then acc ++ [path_text (typeclass_path scriptobj)]
       else acc)
    scripts [].

(** Line 49. *)
Definition unsafe_modules (scripts : list ScriptDB) : list string :=
  list_set (collect_unsafe scripts).

(** Line 53; the two tuples it closes over are explicit arguments. *)
Definition safe_dir_to_reload (pdirs edirs : list string) (modpath : string) : bool :=
  negb (existsb
          (λ pdir, startswith modpath pdir
                       && negb (existsb (λ edir, startswith modpath edir) edirs))
          pdirs).

(** Line 56; [unsafe] is the list built at line 49. *)
Definition safe_mod_to_reload (unsafe : list string) (modpath : string) : bool :=
  negb (existsb (λ mpath, startswith mpath modpath) unsafe).

(** Lines 70-73. *)
Definition safe_dir_modified (modified : list string) : list string :=
  List.filter (safe_dir_to_reload protected_dirs except_dirs) modified.

Definition unsafe_dir_modified (modified : list string) : list string :=
  List.filter (λ modname, negb (py_in modname (safe_dir_modified modified))) modified.

Definition safe_modified (scripts : list ScriptDB) (modified : list string) : list string :=
  List.filter (safe_mod_to_reload (unsafe_modules scripts)) (safe_dir_modified modified).

Definition unsafe_mod_modified (scripts : list ScriptDB) (modified : list string) : list string :=
  List.filter (λ modname, negb (py_in modname (safe_modified scripts modified)))
              (safe_dir_modified modified).

(** Sample data. *)
Definition timer_script : ScriptDB :=
  mkScript 1 10 (Some "src.scripts.scripts.Script") true.
Definition monster_script : ScriptDB :=
  mkScript 2 5 (Some "game.objects.monster.Hunt") false.
Definition default_cmd_script : ScriptDB :=
  mkScript 3 0 (Some "src.commands.default.general.Tick") true.
Definition pathless_script : ScriptDB :=
  mkScript 4 3 None true.
Definition untimed_script : ScriptDB :=
  mkScript 5 (-1) (Some "game.objects.door.Close") true.

Definition sample_scripts : list ScriptDB :=
  [timer_script; monster_script; default_cmd_script; pathless_script; untimed_script].
Definition sample_modified : list string :=
  ["game.commands.default.look"; "game.objects.monster"; "src.scripts.scripts";
   "src.commands.default.general"; "src.commands.default.help"].

(** ** Exceptions, effects and the collaborators of the module *)

(** A raised Python exception, named by its class.  Only exceptions
    deriving from [Exception] are modelled. *)
Inductive exn := Exn (cls : string).

Inductive result (A : Type) : Type :=
| Ok (a : A)
| Raise (e : exn).
Arguments Ok {A} a.
Arguments Raise {A} e.

(** Calls the module makes on other parts of the server, in the order
    in which they are made.  A call is recorded when it is made, whether
    or not it then raises.  The logger is taken to accept every text:
    [LogInfo] stands for a line written to the durable log. *)
Inductive event :=
| LogInfo (msg : string)                  (* logger.log_infomsg(msg) *)
| ChannelMsg (cname msg : string)         (* infochan.msg(msg), infochan.key = cname *)
| AppCacheCleaned                         (* lines 61-66 *)
| Reimport (mods : list string)           (* reimport.reimport( *mods ) *)
| TypeclassReset                          (* typeclassmodels.reset() *)
| ExitClear                               (* exithandler.EXITHANDLER.clear() *)
| ChannelUpdate                           (* channelhandler.CHANNELHANDLER.update() *)
| RunAsync                                (* utils.run_async(run_reset_loop, ...) *)
| ValidateScripts                         (* ScriptDB.objects.validate(...) *)
| CmdsetsCleared.                         (* cmdsethandler.CACHED_CMDSETS = {} *)

(** A computation over a state [S] either returns or raises; what was
    done to the state before a raise stays done.  The computations of
    the module, [M], run over the trace of calls. *)
Definition St (S A : Type) : Type := S → result A * S.

#[global] Instance St_ret {S} : MRet (St S) := λ A a s, (Ok a, s).
#[global] Instance St_bind {S} : MBind (St S) := λ A B f c s,
  match c s with
  | (Ok a, s') => f a s'
  | (Raise e, s') => (Raise e, s')
  end.

Abbreviation M := (St (list event)).

(** Make the call [ev]; its outcome is [r]. *)
Definition call {A} (ev : event) (r : result A) : M A :=
  λ tr, (r, tr ++ [ev]).

(** An outcome that leaves no trace of its own (a query, a formatting). *)
Definition lift {A} (r : result A) : M A := λ tr, (r, tr).

(** [if c: body] *)
Definition when (c : bool) (body : M unit) : M unit :=
  if c then body else mret tt.

(** The text handed to [logger.log_infomsg], call by call. *)
Definition logged (tr : list event) : list string :=
  flat_map (λ ev, match ev with LogInfo m => [m] | _ => [] end) tr.

(** ** Values and collaborators of the reporter *)

Record Channel := mkChannel { key : string }.

(** What [settings.CHANNEL_MUDINFO] may hold: [None] or a tuple of strings. *)
Inductive pyvalue := PyNone | PyTuple (items : list string).

(** What the variable [infochan] of [cemit_info] may hold. *)
Inductive infochan_value :=
| IcNone
| IcSetting (v : pyvalue)
| IcChannel (c : Channel).

(** The arguments of [reload_scripts]. *)
Record selector := mkSelector {
  sel_scripts : option (list Z);
  sel_obj : option Z;
  sel_key : option string;
  sel_dbref : option Z
}.

(** Behaviour of the code that reloads.py calls but does not define. *)
Record Env := mkEnv {
  get_all_scripts : result (list ScriptDB);        (* ScriptDB.objects.get_all_scripts() *)
  reimport_modified : result (list string);        (* reimport.modified() *)
  reimport_reimport : list string → result unit;   (* reimport.reimport( *mods ) *)
  typeclassmodels_reset : result unit;
  exithandler_clear : result unit;
  channelhandler_update : result unit;
  run_async : result unit;                         (* scheduling only *)
  validate : selector → bool → result (Z * Z);     (* ScriptDB.objects.validate(...) *)
  CHANNEL_MUDINFO : result pyvalue;                (* attribute of settings *)
  get_channel : string → result (option Channel);  (* Channel.objects.get_channel(key) *)
  channel_msg : Channel → string → result unit     (* channel.msg(text) *)
}.

(** ** Text helpers *)

Definition nl : string := String "010"%char "".

(** [s.split('\n')] *)
Fixpoint split_nl (s : string) : list string :=
  match s with
  | "" => [""]
  | String c rest =>
      if Ascii.eqb c "010"%char then "" :: split_nl rest
      else match split_nl rest with
           | [] => [String c ""]
           | line :: lines => String c line :: lines
           end
  end.

(** ['-'*n] *)
Fixpoint dashes (n : nat) : string :=
  match n with
  | O => ""
  | S k => String "-"%char (dashes k)
  end.

(** [bool(s)] and [bool(l)] *)
Definition nonempty_str (s : string) : bool :=
  match s with "" => false | _ => true end.
Definition nonempty_list {A} (l : list A) : bool :=
  match l with [] => false | _ => true end.

(** [str(n)] for an integer. *)
Definition str_int (n : Z) : string := NilZero.string_of_int (Z.to_int n).

(** The lines the durable log received. *)
Definition log_lines (tr : list event) : list string :=
  flat_map split_nl (logged tr).

#[global] Instance result_ret : MRet result := λ A a, Ok a.
#[global] Instance result_bind : MBind result := λ A B f r,
  match r with
  | Ok a => f a
  | Raise e => Raise e
  end.
#[global] Instance result_fmap : FMap result := λ A B f r,
  match r with
  | Ok a => Ok (f a)
  | Raise e => Raise e
  end.

(** [repr(s)] of a byte string. *)
Definition hex_digit (n : N) : ascii :=
  ascii_of_N (if (n <? 10)%N then 48 + n else 87 + n).

Definition has_char (c : ascii) (s : string) : bool :=
  existsb (Ascii.eqb c) (list_ascii_of_string s).

Definition repr_quote (s : string) : ascii :=
  if has_char "'"%char s && negb (has_char "034"%char s) then "034"%char else "'"%char.

Definition repr_char (quote c : ascii) : string :=
  let n := N_of_ascii c in
  if Ascii.eqb c quote || Ascii.eqb c "\"%char then String "\"%char (String c "")
  else if Ascii.eqb c "009"%char then "\t"
  else if Ascii.eqb c "010"%char then "\n"
  else if Ascii.eqb c "013"%char then "\r"
  else if (n <? 32)%N || (127 <=? n)%N
       then String "\"%char (String "x"%char
              (String (hex_digit (n / 16)) (String (hex_digit (n mod 16)) "")))
  else String c "".

Fixpoint repr_body (quote : ascii) (s : string) : string :=
  match s with
  | "" => ""
  | String c rest => repr_char quote c +:+ repr_body quote rest
  end.

Definition py_repr (s : string) : string :=
  let q := repr_quote s in
  String q (repr_body q s) +:+ String q "".

(** [str(l)] of a list of strings, as ["%s" % l] prints it. *)
Definition str_list (l : list string) : string :=
  "[" +:+ String.concat ", " (List.map py_repr l) +:+ "]".

(** [fmt % x] for a single argument [x] that is not a tuple and whose
    [str] is [arg].  The directives interpreted are the ones the module
    writes, [%s], and the literal [%%].  Any other directive is outside
    this model: it is answered with a [ValueError], which is not in every
    case what Python answers, and the statements below keep to formats
    and module names without such directives. *)
Fixpoint format_aux (fmt : string) (arg : option string) : result string :=
  match fmt with
  | "" => match arg with
          | None => Ok ""
          | Some _ => Raise (Exn "TypeError")     (* not all arguments converted *)
          end
  | String c rest =>
      if Ascii.eqb c "%"%char then
        match rest with
        | "" => Raise (Exn "ValueError")          (* incomplete format *)
        | String d rest' =>
            if Ascii.eqb d "s"%char then
              match arg with
              | Some a => String.append a <$> format_aux rest' None
              | None => Raise (Exn "TypeError")   (* not enough arguments *)
              end
            else if Ascii.eqb d "%"%char then String "%"%char <$> format_aux rest' arg
            else Raise (Exn "ValueError")
        end
      else String c <$> format_aux rest arg
  end.

Definition py_format (fmt arg : string) : result string :=
  format_aux fmt (Some arg).

(** ** The reporter (cemit_info, lines 146-165) *)

(** [infochan[0]] *)
Definition getitem0 (v : pyvalue) : result string :=
  match v with
  | PyNone => Raise (Exn "TypeError")
  | PyTuple [] => Raise (Exn "IndexError")
  | PyTuple (k :: _) => Ok k
  end.

(** Lines 153-158: the value of [infochan] after the try block. *)
Definition lookup_infochan (env : Env) : infochan_value :=
  match CHANNEL_MUDINFO env with
  | Raise _ => IcNone
  | Ok v =>
      match getitem0 v with
      | Raise _ => IcSetting v
      | Ok k =>
          match get_channel env k with
          | Raise _ => IcSetting v
          | Ok None => IcNone
          | Ok (Some c) => IcChannel c
          end
      end
  end.

(** [bool(infochan)] *)
Definition infochan_truthy (i : infochan_value) : bool :=
  match i with
  | IcNone => false
  | IcSetting PyNone => false
  | IcSetting (PyTuple items) => nonempty_list items
  | IcChannel _ => true
  end.

(** Lines 161 and 164: every line of the message behind a bracketed tag. *)
Definition tag_lines (tag message : string) : string :=
  String.concat nl
    (List.map (λ line, "[" +:+ tag +:+ "]: " +:+ line) (split_nl message)).

Definition cemit_info (env : Env) (message : string) : M unit :=
  call (LogInfo message) (Ok tt);;
  let infochan := lookup_infochan env in
  if infochan_truthy infochan then
    match infochan with
    | IcChannel c =>
        let cname := key c in
        let cmessage := tag_lines cname message in
        call (ChannelMsg cname cmessage) (channel_msg env c cmessage)
    | _ => lift (Raise (Exn "AttributeError"))     (* infochan.key on a tuple *)
    end
  else
    let cmessage := tag_lines "NO MUDINFO CHANNEL" message in
    call (LogInfo cmessage) (Ok tt).

(** ** The reload cycle (reload_modules, lines 24-117) *)

(** Lines 75-88: the warning about modules that are left alone. *)
Definition warning_text (unsafe_dir unsafe_mod : list string) : result string :=
  let string := "" in
  if nonempty_list unsafe_dir || nonempty_list unsafe_mod then
    let string := string +:+ nl +:+ " WARNING: Some modules can not be reloaded" in
    let string := string +:+ nl +:+ " since it would not be safe to do so." +:+ nl in
    string ←
      (if nonempty_list unsafe_dir then
         let string := string +:+ nl
           +:+ "-The following module(s) is/are located in the src/ directory and" in
         let string := string +:+ nl
           +:+ " should not be reloaded without a server reboot:" +:+ nl +:+ "  %s" +:+ nl in
         py_format string (str_list unsafe_dir)
       else Ok string);
    if nonempty_list unsafe_mod then
      let string := string +:+ nl
        +:+ "-The following modules contains at least one Script class with a timer" in
      let string := string +:+ nl
        +:+ " component and which has already spawned instances - these cannot be " in
      let string := string +:+ nl
        +:+ " safely cleaned from memory on the fly. Stop all the affected scripts " in
      let string := string +:+ nl
        +:+ " or restart the server to safely reload:" +:+ nl +:+ "  %s" +:+ nl in
      py_format string (str_list unsafe_mod)
    else Ok string
  else Ok string.

(** Lines 99-102: typeclass, exit and channel caches, one after the other. *)
Definition cache_cascade (env : Env) : M unit :=
  call TypeclassReset (typeclassmodels_reset env);;
  call ExitClear (exithandler_clear env);;
  call ChannelUpdate (channelhandler_update env).

Definition reload_modules (env : Env) : M unit :=
  scripts ← lift (get_all_scripts env);
  cemit_info env (dashes 50 +:+ nl +:+ " Cleaning module caches ...");;
  call AppCacheCleaned (Ok tt);;
  modified ← lift (reimport_modified env);
  let unsafe_dir := unsafe_dir_modified modified in
  let safe := safe_modified scripts modified in
  let unsafe_mod := unsafe_mod_modified scripts modified in
  string ← lift (warning_text unsafe_dir unsafe_mod);
  when (nonempty_str string) (cemit_info env string);;
  (if nonempty_list safe then
     text ← lift (py_format (" Reloading module(s):" +:+ nl +:+ "  %s ...") (str_list safe));
     cemit_info env text;;
     call (Reimport safe) (reimport_reimport env safe);;
     cemit_info env " ...all safe modules reloaded."
   else
     cemit_info env " Nothing was reloaded.");;
  cache_cascade env;;
  cemit_info env " Starting asynchronous object reset loop ...";;
  call RunAsync (run_async env).

(** ** Script validation and command-set cache (lines 119-144) *)

Definition reload_scripts (env : Env) (sel : selector) (init_mode : bool) : M unit :=
  cemit_info env " Validating scripts ...";;
  counts ← call ValidateScripts (validate env sel init_mode);
  let string := " Started " +:+ str_int counts.1
                +:+ " script(s). Stopped " +:+ str_int counts.2
                +:+ " invalid script(s)." in
  cemit_info env string.

Definition reload_commands (env : Env) : M unit :=
  call CmdsetsCleared (Ok tt);;
  cemit_info env (" Cleaned cmdset cache." +:+ nl +:+ dashes 50).

(** ** The reset loop (run_reset_loop, lines 107-114) *)

Inductive category :=
| CatObject      (* ObjectDB *)
| CatScript      (* ScriptDB *)
| CatPlayer      (* PlayerDB *)
| CatHelp        (* HelpEntry *)
| CatMsg         (* Msg *)
| CatChannel.    (* Channel *)

#[global] Instance category_eq_dec : EqDecision category.
Proof. solve_decision. Defined.

(** The stored columns of an entity. *)
Record Durable := mkDurable {
  d_id : Z;
  d_typeclass_path : string;
  d_cmdset_storage : list string;
  d_lock_storage : string
}.

(** A live instance: its stored columns and the two handler caches. *)
Record Entity := mkEntity {
  durable : Durable;
  cmdset_cache : list string;
  lock_cache : list string
}.

(** [Model.objects.all()] for every model. *)
Definition Database : Type := category → list Entity.

Definition set_instances (cat : category) (l : list Entity) (db : Database) : Database :=
  λ c, if decide (c = cat) then l else db c.

(** What the loaded code makes of an entity's stored columns. *)
Record Code := mkCode {
  build_cmdset : Durable → result (list string);
  build_locks : Durable → result (list string)
}.

(** Modelled from the spec: the handler method [o.cmdset.reset()], defined
    outside reloads.py.  It rebuilds the command-set cache of the instance
    from the loaded code; a rebuild that raises leaves the cache as it was. *)
Definition cmdset_reset (code : Code) : St Entity unit :=
  λ o, match build_cmdset code (durable o) with
       | Ok cs => (Ok tt, mkEntity (durable o) cs (lock_cache o))
       | Raise e => (Raise e, o)
       end.

(** Modelled from the spec: the handler method [o.locks.reset()], defined
    outside reloads.py.  It rebuilds the lock cache of the instance from
    the loaded code; a rebuild that raises leaves the cache as it was. *)
Definition locks_reset (code : Code) : St Entity unit :=
  λ o, match build_locks code (durable o) with
       | Ok ls => (Ok tt, mkEntity (durable o) (cmdset_cache o) ls)
       | Raise e => (Raise e, o)
       end.

(** A list comprehension run for its effects on the instances. *)
Fixpoint for_each (step : St Entity unit) (l : list Entity) : result unit * list Entity :=
  match l with
  | [] => (Ok tt, [])
  | o :: rest =>
      match step o with
      | (Ok _, o') =>
          let '(r, rest') := for_each step rest in (r, o' :: rest')
      | (Raise e, o') => (Raise e, o' :: rest)
      end
  end.

Definition for_all_of (cat : category) (step : St Entity unit) : St Database unit :=
  λ db, let '(r, l) := for_each step (db cat) in (r, set_instances cat l db).

Definition run_reset_loop (code : Code) : St Database unit :=
  for_all_of CatObject (cmdset_reset code;; locks_reset code);;
  for_all_of CatScript (locks_reset code);;
  for_all_of CatPlayer (locks_reset code);;
  for_all_of CatHelp (locks_reset code);;
  for_all_of CatMsg (locks_reset code);;
  for_all_of CatChannel (locks_reset code).

(** The categories whose instances carry a command-set handler that the
    loop resets (line 109). *)
Definition behavior_bearing (cat : category) : bool :=
  match cat with CatObject => true | _ => false end.

(** ** Vocabulary of the statements *)

(** The reporter can finish its call: the lookup leaves no usable channel
    behind, or it resolves a channel that accepts every message. *)
Definition delivers (env : Env) : Prop :=
  match lookup_infochan env with
  | IcChannel c => ∀ text, channel_msg env c text = Ok tt
  | i => infochan_truthy i = false
  end.

(** The cache and sweep calls of a trace, in order. *)
Definition cascade_calls (tr : list event) : list event :=
  List.filter
    (λ ev, match ev with
           | TypeclassReset | ExitClear | ChannelUpdate | RunAsync => true
           | _ => false
           end)
    tr.

(** Module names without a percent sign. *)
Definition percent_free (s : string) : bool := negb (has_char "%" s).

(** The text of a format before its first percent sign, and the text
    after the two characters of that directive. *)
Fixpoint before_directive (fmt : string) : string :=
  match fmt with
  | "" => ""
  | String c rest =>
      if Ascii.eqb c "%" then "" else String c (before_directive rest)
  end.

Fixpoint after_directive (fmt : string) : string :=
  match fmt with
  | "" => ""
  | String c rest =>
      if Ascii.eqb c "%" then match rest with String _ r => r | "" => "" end
      else after_directive rest
  end.

(** ** Sample collaborators *)

Definition mudinfo : Channel := mkChannel "MUDinfo".

Definition mudinfo_setting : pyvalue :=
  PyTuple ["MUDinfo"; "Informative messages"; "send:all()"].

(** A server in which every collaborator answers, built from the parts
    that vary below: re-import, typeclass reset, the setting, the channel
    lookup and the channel send. *)
Definition server (reimp : list string → result unit) (tc_reset : result unit)
    (setting : result pyvalue) (lookup : string → result (option Channel))
    (send : Channel → string → result unit) : Env :=
  mkEnv (Ok sample_scripts) (Ok sample_modified) reimp tc_reset (Ok tt) (Ok tt) (Ok tt)
        (λ _ _, Ok (1, 0)) setting lookup send.

(** No MUDinfo channel exists; everything else works. *)
Definition no_channel_env : Env :=
  server (λ _, Ok tt) (Ok tt) (Ok mudinfo_setting) (λ _, Ok None) (λ _ _, Ok tt).

(** The setting itself is missing. *)
Definition no_setting_env : Env :=
  server (λ _, Ok tt) (Ok tt) (Raise (Exn "AttributeError")) (λ _, Ok None) (λ _ _, Ok tt).

(** The channel exists and accepts messages. *)
Definition channel_env : Env :=
  server (λ _, Ok tt) (Ok tt) (Ok mudinfo_setting) (λ _, Ok (Some mudinfo)) (λ _ _, Ok tt).

(** The channel exists but sending to it raises. *)
Definition send_fails_env : Env :=
  server (λ _, Ok tt) (Ok tt) (Ok mudinfo_setting) (λ _, Ok (Some mudinfo))
         (λ _ _, Raise (Exn "RuntimeError")).

(** The setting names a channel but the lookup raises. *)
Definition lookup_raises_env : Env :=
  server (λ _, Ok tt) (Ok tt) (Ok mudinfo_setting) (λ _, Raise (Exn "DatabaseError"))
         (λ _ _, Ok tt).

(** A modified module no longer compiles. *)
Definition reimport_fails_env : Env :=
  server (λ _, Raise (Exn "SyntaxError")) (Ok tt) (Ok mudinfo_setting) (λ _, Ok None)
         (λ _ _, Ok tt).

(** The typeclass registry reset raises. *)
Definition reset_fails_env : Env :=
  server (λ _, Ok tt) (Raise (Exn "KeyError")) (Ok mudinfo_setting) (λ _, Ok None)
         (λ _ _, Ok tt).

Definition two_lines : string := "line1" +:+ nl +:+ "line2".

(** ** Sample instances *)

(** Code under which every rebuild succeeds. *)
Definition sample_code : Code :=
  mkCode (λ d, Ok (List.map (λ path, path +:+ "@new") (d_cmdset_storage d)))
         (λ d, Ok (d_lock_storage d :: split_nl (d_typeclass_path d))).

(** Code whose lock rebuild fails for the instance with id 2. *)
Definition failing_code : Code :=
  mkCode (build_cmdset sample_code)
         (λ d, if d_id d =? 2 then Raise (Exn "ImportError")
               else build_locks sample_code d).

Definition limbo : Entity :=
  mkEntity (mkDurable 1 "game.objects.room.Room" ["cmdsets.room"] "get:false()")
           ["cmdsets.room@old"] ["stale"].
Definition sword : Entity :=
  mkEntity (mkDurable 2 "game.objects.weapon.Sword" ["cmdsets.wield"] "get:all()")
           ["cmdsets.wield@old"] ["stale"].
Definition ticker : Entity :=
  mkEntity (mkDurable 3 "game.scripts.Ticker" [] "examine:perm(Wizards)")
           ["left alone"] ["stale"].
Definition admin : Entity :=
  mkEntity (mkDurable 4 "game.players.Player" [] "boot:perm(Wizards)")
           ["left alone"] ["stale"].

Definition sample_db : Database :=
  λ cat, match cat with
         | CatObject => [limbo; sword]
         | CatScript => [ticker]
         | CatPlayer => [admin]
         | _ => []
         end.

(** ** Vocabulary of the call-order statements *)

(** The calls of a trace other than those of the reporter. *)
Definition collab_calls (tr : list event) : list event :=
  List.filter
    (λ ev, match ev with
           | LogInfo _ | ChannelMsg _ _ => false
           | _ => true
           end)
    tr.

(** The collaborator calls of a reload cycle that runs to its end, in
    the order of the source: line 61, line 94 when something is safe to
    reload, lines 100-102, line 117. *)
Definition planned_calls (env : Env) : list event :=
  match get_all_scripts env, reimport_modified env with
  | Ok scripts, Ok modified =>
      let safe := safe_modified scripts modified in
      AppCacheCleaned
        :: (if nonempty_list safe then [Reimport safe] else [])
        ++ [TypeclassReset; ExitClear; ChannelUpdate; RunAsync]
  | Ok _, Raise _ => [AppCacheCleaned]
  | Raise _, _ => []
  end.

(** What one call of the reporter adds to the trace when it returns. *)
Definition report_events (env : Env) (message : string) : list event :=
  LogInfo message
    :: match lookup_infochan env with
       | IcChannel c => [ChannelMsg (key c) (tag_lines (key c) message)]
       | _ => [LogInfo (tag_lines "NO MUDINFO CHANNEL" message)]
       end.

(** The models in the order in which the reset loop visits them, and
    what it does to an instance of each. *)
Definition sweep_order : list category :=
  [CatObject; CatScript; CatPlayer; CatHelp; CatMsg; CatChannel].

Definition step_of (code : Code) (cat : category) : St Entity unit :=
  if behavior_bearing cat then cmdset_reset code;; locks_reset code
  else locks_reset code.

(** Printable characters that [repr] copies as they are. *)
Definition plain_char (c : ascii) : bool :=
  let n := N_of_ascii c in
  (32 <=? n)%N && (n <? 127)%N
  && negb (Ascii.eqb c "'") && negb (Ascii.eqb c "034") && negb (Ascii.eqb c "\").

Definition plain (s : string) : bool :=
  forallb plain_char (list_ascii_of_string s).

(** A server on which nothing was modified and no channel exists. *)
Definition idle_env : Env :=
  mkEnv (Ok sample_scripts) (Ok []) (λ _, Ok tt) (Ok tt) (Ok tt) (Ok tt) (Ok tt)
        (λ _ _, Ok (3, 1)) (Ok PyNone) (λ _, Ok None) (λ _ _, Ok tt).

(** * Properties *)

(** ** Python primitives *)

Lemma py_in_In x l : py_in x l = true ↔ In x l.
Proof.
  unfold py_in. rewrite existsb_exists. split.
  - intros (y & Hy & Heq). apply String.eqb_eq in Heq. by subst.
  - intros Hx. exists x. split; [done | apply String.eqb_refl].
Qed.

Lemma py_in_false x l : py_in x l = false ↔ ¬ In x l.
Proof. rewrite <- py_in_In. destruct (py_in x l); split; congruence. Qed.

Lemma list_set_In x l : In x (list_set l) ↔ In x l.
Proof.
  unfold list_set. rewrite <- !list_elem_of_In.
  by rewrite elem_of_elements, elem_of_list_to_set.
Qed.

Lemma list_set_NoDup l : List.NoDup (list_set l).
Proof. unfold list_set. apply NoDup_ListNoDup, NoDup_elements. Qed.

Lemma prefix_trans a b c :
  String.prefix a b = true → String.prefix b c = true → String.prefix a c = true.
Proof.
  revert b c. induction a as [|x a IH]; intros b c Hab Hbc; [by destruct c |].
  destruct b as [|y b]; [done |]. destruct c as [|z c]; [done |].
  simpl in *.
  destruct (ascii_dec x y) as [->|]; [| done].
  destruct (ascii_dec y z) as [->|]; [| done].
  eauto.
Qed.

Lemma prefix_nonempty a b :
  String.prefix a b = true → a ≠ "" → b ≠ "".
Proof. destruct a, b; simpl; congruence. Qed.

Lemma path_truthy_Some p : path_truthy (Some p) = true ↔ p ≠ "".
Proof. destruct p; simpl; split; congruence. Qed.

(** ** The unsafe-module list *)

Lemma collect_step_In (acc : list string) (s : ScriptDB) (p : string) :
  In p (if (interval s >? -1) && path_truthy (typeclass_path s)
        then acc ++ [path_text (typeclass_path s)] else acc)
  ↔ In p acc ∨ (-1 < interval s ∧ typeclass_path s = Some p ∧ p ≠ "").
Proof.
  destruct (interval s >? -1) eqn:Hi; simpl.
  - apply Z.gtb_lt in Hi.
    destruct (typeclass_path s) as [[|c q]|] eqn:Hp; simpl.
    + split; [auto | intros [H | (_ & Heq & Hne)]; [done | congruence]].
    + rewrite in_app_iff. simpl. split.
      * intros [H | [<- | []]]; [by left | right; done].
      * intros [H | (_ & Heq & _)]; [by left | right; left; congruence].
    + split; [auto | intros [H | (_ & Heq & _)]; [done | congruence]].
  - rewrite Z.gtb_ltb in Hi. apply Z.ltb_ge in Hi.
    split; [auto | intros [H | (Hlt & _)]; [done | lia]].
Qed.

Lemma fold_collect_In (scripts : list ScriptDB) (acc : list string) (p : string) :
  In p (fold_left
          (λ acc scriptobj,
             if (interval scriptobj >? -1) && path_truthy (typeclass_path scriptobj)
             then acc ++ [path_text (typeclass_path scriptobj)] else acc)
          scripts acc)
  ↔ In p acc ∨ ∃ s, In s scripts ∧ -1 < interval s ∧ typeclass_path s = Some p ∧ p ≠ "".
Proof.
  revert acc. induction scripts as [|s scripts IH]; intros acc; simpl.
  - split; [auto | intros [H | (s & [] & _)]; done].
  - rewrite IH, collect_step_In. split.
    + intros [[H | H] | (s' & Hin & H)]; [by left | right; exists s; auto | right; exists s'; auto].
    + intros [H | (s' & [<- | Hin] & H)]; [by left; left | by left; right | right; exists s'; auto].
Qed.

Lemma collect_unsafe_In scripts p :
  In p (collect_unsafe scripts)
  ↔ ∃ s, In s scripts ∧ -1 < interval s ∧ typeclass_path s = Some p ∧ p ≠ "".
Proof.
  unfold collect_unsafe. rewrite fold_collect_In. simpl. split; [intros [[] | H]; done | auto].
Qed.

Lemma unsafe_modules_In scripts p :
  In p (unsafe_modules scripts)
  ↔ ∃ s, In s scripts ∧ -1 < interval s ∧ typeclass_path s = Some p ∧ p ≠ "".
Proof. unfold unsafe_modules. by rewrite list_set_In, collect_unsafe_In. Qed.

(** C10: the list used for timer-unsafety has no duplicates and holds
    exactly the non-empty typeclass paths of the scripts whose interval is
    above -1.  Whether the script is running ([is_active]) plays no part:
    a stopped script with such an interval contributes, and a script whose
    typeclass path is empty or missing contributes nothing whatever its
    interval. *)
Theorem unsafe_modules_exact (scripts : list ScriptDB) :
  List.NoDup (unsafe_modules scripts)
  ∧ (∀ p, In p (unsafe_modules scripts)
          ↔ ∃ s, In s scripts ∧ -1 < interval s ∧ typeclass_path s = Some p ∧ p ≠ "")
  ∧ (∀ id i p, p ≠ "" → -1 < i →
       In (mkScript id i (Some p) false) scripts → In p (unsafe_modules scripts))
  ∧ (∀ s, path_truthy (typeclass_path s) = false →
       ∀ p, In p (unsafe_modules (s :: scripts)) ↔ In p (unsafe_modules scripts)).
Proof.
  split; [apply list_set_NoDup |].
  split; [apply unsafe_modules_In |].
  split.
  - intros id i p Hp Hi Hin. apply unsafe_modules_In.
    exists (mkScript id i (Some p) false). simpl. auto.
  - intros s Hs p. rewrite !unsafe_modules_In. split.
    + intros (s' & [<- | Hin] & Hi & Hp & Hne).
      * rewrite Hp in Hs. apply path_truthy_Some in Hne. congruence.
      * exists s'. auto.
    + intros (s' & Hin & H). exists s'. simpl. auto.
Qed.

Example unsafe_modules_sample :
  unsafe_modules sample_scripts =
  ["game.objects.monster.Hunt"; "src.scripts.scripts.Script";
   "src.commands.default.general.Tick"].
Proof. vm_compute. reflexivity. Qed.

Example unsafe_modules_dedup :
  unsafe_modules [timer_script; pathless_script; timer_script; untimed_script] =
  ["src.scripts.scripts.Script"].
Proof. vm_compute. reflexivity. Qed.

(** ** Membership in the four lists of lines 70-73 *)

Lemma In_safe_dir_modified modified m :
  In m (safe_dir_modified modified)
  ↔ In m modified ∧ safe_dir_to_reload protected_dirs except_dirs m = true.
Proof. unfold safe_dir_modified. apply filter_In. Qed.

Lemma In_unsafe_dir_modified modified m :
  In m (unsafe_dir_modified modified)
  ↔ In m modified ∧ safe_dir_to_reload protected_dirs except_dirs m = false.
Proof.
  unfold unsafe_dir_modified. rewrite filter_In, negb_true_iff, py_in_false.
  rewrite In_safe_dir_modified.
  destruct (safe_dir_to_reload protected_dirs except_dirs m); intuition congruence.
Qed.

Lemma In_safe_modified scripts modified m :
  In m (safe_modified scripts modified)
  ↔ In m modified
    ∧ safe_dir_to_reload protected_dirs except_dirs m = true
    ∧ safe_mod_to_reload (unsafe_modules scripts) m = true.
Proof. unfold safe_modified. rewrite filter_In, In_safe_dir_modified. tauto. Qed.

Lemma In_unsafe_mod_modified scripts modified m :
  In m (unsafe_mod_modified scripts modified)
  ↔ In m modified
    ∧ safe_dir_to_reload protected_dirs except_dirs m = true
    ∧ safe_mod_to_reload (unsafe_modules scripts) m = false.
Proof.
  unfold unsafe_mod_modified. rewrite filter_In, negb_true_iff, py_in_false.
  rewrite In_safe_modified, In_safe_dir_modified.
  destruct (safe_mod_to_reload (unsafe_modules scripts) m); intuition congruence.
Qed.

Lemma safe_mod_false unsafe m :
  safe_mod_to_reload unsafe m = false ↔ ∃ p, In p unsafe ∧ startswith p m = true.
Proof. unfold safe_mod_to_reload. by rewrite negb_false_iff, existsb_exists. Qed.

Lemma exception_is_dir_safe pdirs edirs m :
  existsb (λ edir, startswith m edir) edirs = true →
  safe_dir_to_reload pdirs edirs m = true.
Proof.
  intros He. unfold safe_dir_to_reload. rewrite He. simpl.
  apply negb_true_iff. induction pdirs as [|pd pdirs IH]; [done |].
  simpl. by rewrite andb_false_r.
Qed.

Lemma timed_script_blocks scripts m s p :
  In s scripts → -1 < interval s → typeclass_path s = Some p → p ≠ "" →
  startswith p m = true →
  safe_mod_to_reload (unsafe_modules scripts) m = false.
Proof.
  intros Hs Hi Hp Hne Hpre. apply safe_mod_false. exists p. split; [| done].
  apply unsafe_modules_In. exists s. auto.
Qed.

(** C1: as sets, safe-modified, unsafe-dir-modified and unsafe-mod-modified
    are pairwise disjoint and their union is the set of modified modules. *)
Theorem classification_partition (scripts : list ScriptDB) (modified : list string) :
  let safe : gset string := list_to_set (safe_modified scripts modified) in
  let unsafe_dir : gset string := list_to_set (unsafe_dir_modified modified) in
  let unsafe_mod : gset string := list_to_set (unsafe_mod_modified scripts modified) in
  safe ∪ unsafe_dir ∪ unsafe_mod = list_to_set modified
  ∧ safe ## unsafe_dir ∧ safe ## unsafe_mod ∧ unsafe_dir ## unsafe_mod.
Proof.
  intros safe unsafe_dir unsafe_mod.
  assert (Hs : ∀ m, m ∈ safe ↔ In m (safe_modified scripts modified))
    by (intros m; unfold safe; by rewrite elem_of_list_to_set, list_elem_of_In).
  assert (Hd : ∀ m, m ∈ unsafe_dir ↔ In m (unsafe_dir_modified modified))
    by (intros m; unfold unsafe_dir; by rewrite elem_of_list_to_set, list_elem_of_In).
  assert (Hm : ∀ m, m ∈ unsafe_mod ↔ In m (unsafe_mod_modified scripts modified))
    by (intros m; unfold unsafe_mod; by rewrite elem_of_list_to_set, list_elem_of_In).
  repeat split.
  - apply set_eq. intros m.
    rewrite !elem_of_union, Hs, Hd, Hm, elem_of_list_to_set, list_elem_of_In.
    rewrite In_safe_modified, In_unsafe_dir_modified, In_unsafe_mod_modified.
    destruct (safe_dir_to_reload protected_dirs except_dirs m),
             (safe_mod_to_reload (unsafe_modules scripts) m); intuition congruence.
  - intros m. rewrite Hs, Hd, In_safe_modified, In_unsafe_dir_modified.
    intuition congruence.
  - intros m. rewrite Hs, Hm, In_safe_modified, In_unsafe_mod_modified.
    intuition congruence.
  - intros m. rewrite Hd, Hm, In_unsafe_dir_modified, In_unsafe_mod_modified.
    intuition congruence.
Qed.

Example classification_sample :
  safe_modified sample_scripts sample_modified
    = ["game.commands.default.look"; "src.commands.default.help"]
  ∧ unsafe_dir_modified sample_modified = ["src.scripts.scripts"]
  ∧ unsafe_mod_modified sample_scripts sample_modified
    = ["game.objects.monster"; "src.commands.default.general"].
Proof. vm_compute. auto. Qed.

(** ** Precedence of the three rules *)

(** C2, as stated, fails: a modified module under src/ that backs a timed
    script is reported as unsafe-dir-modified and never reaches the timer
    filter, which only looks at the modules that passed the directory test. *)
Lemma protected_timer_module_is_dir_unsafe :
  In "src.scripts.scripts" ["src.scripts.scripts"]
  ∧ In timer_script [timer_script]
  ∧ -1 < interval timer_script
  ∧ typeclass_path timer_script = Some "src.scripts.scripts.Script"
  ∧ startswith "src.scripts.scripts.Script" "src.scripts.scripts" = true
  ∧ unsafe_mod_modified [timer_script] ["src.scripts.scripts"] = []
  ∧ unsafe_dir_modified ["src.scripts.scripts"] = ["src.scripts.scripts"].
Proof. vm_compute. repeat split; auto. Qed.

(** C2, amended: a modified module that is a prefix of the non-empty
    typeclass path of a script with interval above -1 is unsafe-mod-modified
    exactly when it passes the directory test (it is outside the protected
    prefixes or under an exception prefix); when it fails the directory test
    it is unsafe-dir-modified and not unsafe-mod-modified.  In neither case
    is it safe-modified. *)
Theorem timer_rule_after_directory_rule
    (scripts : list ScriptDB) (modified : list string) (m : string)
    (s : ScriptDB) (p : string) :
  In m modified → In s scripts → -1 < interval s →
  typeclass_path s = Some p → p ≠ "" → startswith p m = true →
  ¬ In m (safe_modified scripts modified)
  ∧ if safe_dir_to_reload protected_dirs except_dirs m
    then In m (unsafe_mod_modified scripts modified)
         ∧ ¬ In m (unsafe_dir_modified modified)
    else In m (unsafe_dir_modified modified)
         ∧ ¬ In m (unsafe_mod_modified scripts modified).
Proof.
  intros Hm Hs Hi Hp Hne Hpre.
  pose proof (timed_script_blocks scripts m s p Hs Hi Hp Hne Hpre) as Hblock.
  destruct (safe_dir_to_reload protected_dirs except_dirs m) eqn:Hdir;
    rewrite In_safe_modified, In_unsafe_mod_modified, In_unsafe_dir_modified;
    intuition congruence.
Qed.

Lemma timer_rule_after_directory_rule_witness :
  ¬ In "src.commands.default.general" (safe_modified sample_scripts sample_modified)
  ∧ In "src.commands.default.general" (unsafe_mod_modified sample_scripts sample_modified)
  ∧ ¬ In "src.commands.default.general" (unsafe_dir_modified sample_modified).
Proof.
  apply (timer_rule_after_directory_rule sample_scripts sample_modified
           "src.commands.default.general" default_cmd_script
           "src.commands.default.general.Tick").
  - simpl. auto.
  - simpl. auto.
  - simpl. lia.
  - reflexivity.
  - discriminate.
  - reflexivity.
Defined.

(** C3: a modified module under an exception prefix that lies inside a
    protected prefix is never unsafe-dir-modified, although the protected
    prefixes alone would reject it; unless the timer filter rejects it, it
    is safe-modified. *)
Theorem exception_overrides_protected
    (scripts : list ScriptDB) (modified : list string) (m edir pdir : string) :
  In m modified →
  In edir except_dirs → In pdir protected_dirs → startswith edir pdir = true →
  startswith m edir = true →
  safe_dir_to_reload protected_dirs [] m = false
  ∧ ¬ In m (unsafe_dir_modified modified)
  ∧ (safe_mod_to_reload (unsafe_modules scripts) m = true →
     In m (safe_modified scripts modified)).
Proof.
  intros Hm He Hp Hnest Hpre.
  assert (Hsafe : safe_dir_to_reload protected_dirs except_dirs m = true).
  { apply exception_is_dir_safe, existsb_exists. eauto. }
  split; [| split].
  - unfold safe_dir_to_reload. apply negb_false_iff, existsb_exists.
    exists pdir. split; [done |]. simpl. rewrite andb_true_r.
    unfold startswith in *. by apply prefix_trans with edir.
  - rewrite In_unsafe_dir_modified. intros [_ H]. congruence.
  - intros Hmod. apply In_safe_modified. auto.
Qed.

Lemma exception_overrides_protected_witness :
  safe_dir_to_reload protected_dirs [] "src.commands.default.help" = false
  ∧ ¬ In "src.commands.default.help" (unsafe_dir_modified sample_modified)
  ∧ (safe_mod_to_reload (unsafe_modules sample_scripts) "src.commands.default.help" = true →
     In "src.commands.default.help" (safe_modified sample_scripts sample_modified)).
Proof.
  apply (exception_overrides_protected sample_scripts sample_modified
           "src.commands.default.help" "src.commands.default." "src.").
  - simpl. auto 10.
  - simpl. auto.
  - simpl. auto.
  - reflexivity.
  - reflexivity.
Defined.

(** C4: a modified module under an exception prefix that is a prefix of
    the typeclass path of a script with interval above -1 is
    unsafe-mod-modified and not safe-modified. *)
Theorem timer_overrides_exception
    (scripts : list ScriptDB) (modified : list string) (m edir : string)
    (s : ScriptDB) (p : string) :
  In m modified →
  In edir except_dirs → startswith m edir = true →
  In s scripts → -1 < interval s → typeclass_path s = Some p →
  startswith p m = true →
  safe_dir_to_reload protected_dirs except_dirs m = true
  ∧ In m (unsafe_mod_modified scripts modified)
  ∧ ¬ In m (safe_modified scripts modified).
Proof.
  intros Hm He Hpre Hs Hi Hp Hpm.
  assert (Hsafe : safe_dir_to_reload protected_dirs except_dirs m = true).
  { apply exception_is_dir_safe, existsb_exists. eauto. }
  assert (Hne : p ≠ "").
  { apply (prefix_nonempty m p Hpm), (prefix_nonempty edir m Hpre).
    destruct He as [<- | []]. discriminate. }
  pose proof (timed_script_blocks scripts m s p Hs Hi Hp Hne Hpm) as Hblock.
  rewrite In_unsafe_mod_modified, In_safe_modified. intuition congruence.
Qed.

Lemma timer_overrides_exception_witness :
  safe_dir_to_reload protected_dirs except_dirs "src.commands.default.general" = true
  ∧ In "src.commands.default.general" (unsafe_mod_modified sample_scripts sample_modified)
  ∧ ¬ In "src.commands.default.general" (safe_modified sample_scripts sample_modified).
Proof.
  apply (timer_overrides_exception sample_scripts sample_modified
           "src.commands.default.general" "src.commands.default." default_cmd_script
           "src.commands.default.general.Tick").
  - simpl. auto 10.
  - simpl. auto.
  - reflexivity.
  - simpl. auto.
  - simpl. lia.
  - reflexivity.
  - reflexivity.
Defined.

(** ** Lines of a text *)

Lemma has_char_cons c x s : has_char c (String x s) = Ascii.eqb x c || has_char c s.
Proof. unfold has_char. simpl. by rewrite (Ascii.eqb_sym c x). Qed.

Lemma has_char_app c a b : has_char c (a +:+ b) = has_char c a || has_char c b.
Proof.
  induction a as [|x a IH]; [done |].
  change (String x a +:+ b) with (String x (a +:+ b)).
  by rewrite !has_char_cons, IH, orb_assoc.
Qed.

Lemma split_nl_cons s : ∃ line lines, split_nl s = line :: lines.
Proof.
  induction s as [|c s (line & lines & IH)]; simpl; [by eauto |].
  destruct (Ascii.eqb c "010"); [by eauto |]. rewrite IH. eauto.
Qed.

Lemma split_nl_lines s : Forall (λ line, has_char "010" line = false) (split_nl s).
Proof.
  induction s as [|c s IH]; simpl; [by repeat constructor |].
  destruct (Ascii.eqb c "010") eqn:Hc; [by constructor |].
  destruct (split_nl s) as [|line lines].
  - repeat constructor. by rewrite has_char_cons, Hc.
  - inversion IH as [|? ? Hline Hlines]; subst. constructor; [| done].
    by rewrite has_char_cons, Hc.
Qed.

Lemma split_nl_line a rest :
  has_char "010" a = false →
  split_nl (a +:+ nl +:+ rest) = a :: split_nl rest.
Proof.
  induction a as [|c a IH]; [done |].
  rewrite has_char_cons. intros H. apply orb_false_elim in H as [Hc Ha].
  change (String c a +:+ nl +:+ rest) with (String c (a +:+ nl +:+ rest)).
  simpl. rewrite Hc, IH; done.
Qed.

Lemma split_nl_single a : has_char "010" a = false → split_nl a = [a].
Proof.
  induction a as [|c a IH]; [done |].
  rewrite has_char_cons. intros H. apply orb_false_elim in H as [Hc Ha].
  simpl. rewrite Hc, IH; done.
Qed.

Lemma split_nl_concat line lines :
  Forall (λ l, has_char "010" l = false) (line :: lines) →
  split_nl (String.concat nl (line :: lines)) = line :: lines.
Proof.
  revert line. induction lines as [|l lines IH]; intros line H.
  - simpl. apply split_nl_single. by inversion H.
  - inversion H as [|? ? Hline Hrest]; subst.
    change (String.concat nl (line :: l :: lines))
      with (line +:+ nl +:+ String.concat nl (l :: lines)).
    rewrite split_nl_line by done. by rewrite IH.
Qed.

Lemma split_tag_lines tag message :
  has_char "010" tag = false →
  split_nl (tag_lines tag message)
  = List.map (λ line, "[" +:+ tag +:+ "]: " +:+ line) (split_nl message).
Proof.
  intros Htag. unfold tag_lines.
  pose proof (split_nl_lines message) as Hlines.
  destruct (split_nl_cons message) as (line & lines & Hsplit). rewrite Hsplit in *.
  apply (split_nl_concat _ _).
  change (Forall (λ l, has_char "010" l = false)
            (List.map (λ line, "[" +:+ tag +:+ "]: " +:+ line) (line :: lines))).
  apply List.Forall_forall. intros l Hl. apply in_map_iff in Hl as (l0 & <- & Hl0).
  rewrite List.Forall_forall in Hlines. specialize (Hlines l0 Hl0).
  rewrite !has_char_app, Htag, Hlines. reflexivity.
Qed.

(** ** The reporter *)

Lemma logged_app tr1 tr2 : logged (tr1 ++ tr2) = logged tr1 ++ logged tr2.
Proof. unfold logged. apply flat_map_app. Qed.

Lemma log_lines_app tr1 tr2 : log_lines (tr1 ++ tr2) = log_lines tr1 ++ log_lines tr2.
Proof. unfold log_lines. by rewrite logged_app, flat_map_app. Qed.

(** With no channel resolved the reporter logs the message and its
    marked copy, and returns. *)
Lemma cemit_info_unresolved env message tr :
  infochan_truthy (lookup_infochan env) = false →
  cemit_info env message tr
  = (Ok tt, tr ++ [LogInfo message; LogInfo (tag_lines "NO MUDINFO CHANNEL" message)]).
Proof.
  intros H. unfold cemit_info, mbind, St_bind, call. rewrite H.
  by rewrite <- app_assoc.
Qed.

(** With a channel resolved the reporter logs the message, sends the
    tagged copy, and ends as the send ends. *)
Lemma cemit_info_resolved env c message tr :
  lookup_infochan env = IcChannel c →
  cemit_info env message tr
  = (channel_msg env c (tag_lines (key c) message),
     tr ++ [LogInfo message; ChannelMsg (key c) (tag_lines (key c) message)]).
Proof.
  intros H. unfold cemit_info, mbind, St_bind, call. rewrite H. simpl.
  by rewrite <- app_assoc.
Qed.

(** When the lookup itself raises, [infochan] still holds the tuple read
    from the settings; the tuple is true and has no [key]. *)
Lemma cemit_info_lookup_raised env k rest e message tr :
  CHANNEL_MUDINFO env = Ok (PyTuple (k :: rest)) →
  get_channel env k = Raise e →
  cemit_info env message tr = (Raise (Exn "AttributeError"), tr ++ [LogInfo message]).
Proof.
  intros Hs Hg. unfold cemit_info, mbind, St_bind, call, lift, lookup_infochan.
  rewrite Hs. simpl. rewrite Hg. reflexivity.
Qed.

(** C7, as stated, fails: the send to a resolved channel is made outside
    the try block, and an exception it raises reaches the caller. *)
Lemma failed_send_reaches_caller :
  lookup_infochan send_fails_env = IcChannel mudinfo
  ∧ channel_msg send_fails_env mudinfo (tag_lines "MUDinfo" " Nothing was reloaded.")
    = Raise (Exn "RuntimeError")
  ∧ (cemit_info send_fails_env " Nothing was reloaded." []).1 = Raise (Exn "RuntimeError").
Proof. vm_compute. auto. Qed.

(** C7, amended: the reporter returns normally whenever the lookup leaves
    no usable channel behind (the setting is missing, is None or empty, or
    no channel of that name exists), and then logs the marked copy of the
    message; when a channel is resolved the call ends as the send to
    that channel ends, so an exception raised by the send reaches the
    caller. *)
Theorem reporter_outcome (env : Env) (message : string) (tr : list event) :
  (infochan_truthy (lookup_infochan env) = false →
     (cemit_info env message tr).1 = Ok tt
     ∧ logged (cemit_info env message tr).2
       = logged tr ++ [message; tag_lines "NO MUDINFO CHANNEL" message])
  ∧ (∀ c, lookup_infochan env = IcChannel c →
     (cemit_info env message tr).1 = channel_msg env c (tag_lines (key c) message)).
Proof.
  split.
  - intros H. rewrite (cemit_info_unresolved env message tr H). simpl.
    by rewrite logged_app.
  - intros c H. by rewrite (cemit_info_resolved env c message tr H).
Qed.

Lemma reporter_outcome_witness :
  ((cemit_info no_setting_env "hello" []).1 = Ok tt
   ∧ logged (cemit_info no_setting_env "hello" []).2
     = ["hello"; "[NO MUDINFO CHANNEL]: hello"])
  ∧ (cemit_info send_fails_env "hello" []).1 = Raise (Exn "RuntimeError").
Proof.
  split.
  - apply (proj1 (reporter_outcome no_setting_env "hello" [])). reflexivity.
  - apply (proj2 (reporter_outcome send_fails_env "hello" []) mudinfo). reflexivity.
Defined.

(** C8, as stated, fails: the message itself is logged first (line 152),
    so a two-line message with no channel leaves four lines in the log and
    the first two carry no marker. *)
Lemma two_line_report_logs_four_lines :
  lookup_infochan no_channel_env = IcNone
  ∧ log_lines (cemit_info no_channel_env two_lines []).2
    = ["line1"; "line2"; "[NO MUDINFO CHANNEL]: line1"; "[NO MUDINFO CHANNEL]: line2"]
  ∧ length (log_lines (cemit_info no_channel_env two_lines []).2) ≠ 2%nat
  ∧ ¬ Forall (λ line, startswith line "[NO MUDINFO CHANNEL]" = true)
        (log_lines (cemit_info no_channel_env two_lines []).2).
Proof.
  vm_compute. repeat split; [discriminate |].
  intros H. inversion H; discriminate.
Qed.

(** With no usable channel left by the lookup, the log receives the lines
    of the message as they are, then the same lines behind the marker. *)
Lemma no_channel_log_lines (env : Env) (message : string) (tr : list event) :
  infochan_truthy (lookup_infochan env) = false →
  (cemit_info env message tr).1 = Ok tt
  ∧ log_lines (cemit_info env message tr).2
    = log_lines tr ++ split_nl message
      ++ List.map (λ line, "[NO MUDINFO CHANNEL]: " +:+ line) (split_nl message).
Proof.
  intros H. rewrite (cemit_info_unresolved env message tr H). simpl.
  split; [done |].
  rewrite log_lines_app. f_equal. unfold log_lines. simpl.
  rewrite app_nil_r. f_equal. by rewrite split_tag_lines.
Qed.

(** The ways in which the lookup of lines 153-158 ends with nothing usable
    in [infochan]: the setting is missing, it is None, it is an empty
    tuple, or no channel has the name it gives. *)
Lemma lookup_leaves_nothing (env : Env) :
  ((∃ e, CHANNEL_MUDINFO env = Raise e)
   ∨ CHANNEL_MUDINFO env = Ok PyNone
   ∨ CHANNEL_MUDINFO env = Ok (PyTuple [])
   ∨ ∃ k others, CHANNEL_MUDINFO env = Ok (PyTuple (k :: others))
                 ∧ get_channel env k = Ok None) →
  infochan_truthy (lookup_infochan env) = false.
Proof.
  unfold lookup_infochan.
  intros [[e ->] | [-> | [-> | (k & others & -> & Hget)]]]; try done.
  simpl. by rewrite Hget.
Qed.

(** C8, amended: when the reporter is called with a two-line message and
    the lookup leaves no usable channel behind (the setting is missing, is
    None or an empty tuple, or no channel of that name exists), the call
    returns and the durable log receives four lines: the two lines of the
    message as they are, then the same two lines in the same order, each
    behind the marker [[NO MUDINFO CHANNEL]: ]. *)
Theorem no_channel_log (env : Env) (line1 line2 : string) (tr : list event) :
  ((∃ e, CHANNEL_MUDINFO env = Raise e)
   ∨ CHANNEL_MUDINFO env = Ok PyNone
   ∨ CHANNEL_MUDINFO env = Ok (PyTuple [])
   ∨ ∃ k others, CHANNEL_MUDINFO env = Ok (PyTuple (k :: others))
                 ∧ get_channel env k = Ok None) →
  has_char "010" line1 = false →
  has_char "010" line2 = false →
  (cemit_info env (line1 +:+ nl +:+ line2) tr).1 = Ok tt
  ∧ log_lines (cemit_info env (line1 +:+ nl +:+ line2) tr).2
    = log_lines tr
      ++ [line1; line2;
          "[NO MUDINFO CHANNEL]: " +:+ line1; "[NO MUDINFO CHANNEL]: " +:+ line2].
Proof.
  intros Hlookup H1 H2. apply lookup_leaves_nothing in Hlookup.
  destruct (no_channel_log_lines env (line1 +:+ nl +:+ line2) tr Hlookup) as [Hret Hlog].
  split; [done |]. rewrite Hlog.
  by rewrite (split_nl_line line1 line2 H1), (split_nl_single line2 H2).
Qed.

Lemma no_channel_log_witness :
  (cemit_info no_channel_env ("line1" +:+ nl +:+ "line2") []).1 = Ok tt
  ∧ log_lines (cemit_info no_channel_env ("line1" +:+ nl +:+ "line2") []).2
    = ["line1"; "line2"; "[NO MUDINFO CHANNEL]: line1"; "[NO MUDINFO CHANNEL]: line2"].
Proof.
  apply (no_channel_log no_channel_env "line1" "line2" []).
  - right. right. right.
    exists "MUDinfo", ["Informative messages"; "send:all()"]. split; reflexivity.
  - reflexivity.
  - reflexivity.
Defined.

Example lookup_raise_reaches_caller :
  (cemit_info lookup_raises_env "hello" []).1 = Raise (Exn "AttributeError").
Proof. reflexivity. Qed.

(** ** Text formatting *)

Lemma append_cons x (a b : string) : String x a +:+ b = String x (a +:+ b).
Proof. reflexivity. Qed.

Lemma append_assoc (a b c : string) : (a +:+ b) +:+ c = a +:+ b +:+ c.
Proof. induction a as [|x a IH]; [done |]. by rewrite !append_cons, IH. Qed.

Lemma append_empty_r (a : string) : a +:+ "" = a.
Proof. induction a as [|x a IH]; [done |]. by rewrite append_cons, IH. Qed.

Lemma format_aux_literal p rest arg :
  has_char "%" p = false →
  format_aux (p +:+ rest) arg = String.append p <$> format_aux rest arg.
Proof.
  induction p as [|c p IH]; intros Hp.
  - change ("" +:+ rest) with rest. by destruct (format_aux rest arg).
  - rewrite has_char_cons in Hp. apply orb_false_elim in Hp as [Hc Hp].
    rewrite append_cons. cbn [format_aux]. rewrite Hc, (IH Hp).
    by destruct (format_aux rest arg).
Qed.

Lemma format_aux_done q : has_char "%" q = false → format_aux q None = Ok q.
Proof.
  intros Hq. rewrite <- (append_empty_r q) at 1.
  rewrite format_aux_literal by done. cbn [format_aux].
  change (String.append q <$> Ok "") with (Ok (q +:+ "")).
  by rewrite append_empty_r.
Qed.

(** A format with one [%s] between two texts free of percent signs. *)
Lemma py_format_one p q a :
  has_char "%" p = false → has_char "%" q = false →
  py_format (p +:+ "%s" +:+ q) a = Ok (p +:+ a +:+ q).
Proof.
  intros Hp Hq. unfold py_format. rewrite format_aux_literal by done.
  change ("%s" +:+ q) with (String "%" (String "s" q)).
  cbn [format_aux]. change (Ascii.eqb "%" "%") with true.
  change (Ascii.eqb "s" "s") with true. cbv iota.
  by rewrite format_aux_done.
Qed.

Lemma repr_char_percent q c :
  Ascii.eqb c "%" = false → has_char "%" (repr_char q c) = false.
Proof.
  intros Hc. unfold repr_char.
  destruct (Ascii.eqb c q).
  - cbn [orb]. rewrite !has_char_cons, Hc. reflexivity.
  - destruct c as [[] [] [] [] [] [] [] []]; try discriminate Hc; reflexivity.
Qed.

Lemma repr_body_percent q s :
  has_char "%" s = false → has_char "%" (repr_body q s) = false.
Proof.
  induction s as [|c s IH]; [done |].
  rewrite has_char_cons. intros H. apply orb_false_elim in H as [Hc Hs].
  cbn [repr_body]. by rewrite has_char_app, repr_char_percent, IH.
Qed.

Lemma py_repr_percent s : has_char "%" s = false → has_char "%" (py_repr s) = false.
Proof.
  intros Hs. unfold py_repr.
  assert (Hq : Ascii.eqb (repr_quote s) "%" = false).
  { unfold repr_quote. by destruct (_ && _). }
  rewrite has_char_app, !has_char_cons, Hq, repr_body_percent by done. reflexivity.
Qed.

Lemma concat_percent sep l :
  has_char "%" sep = false →
  forallb (λ s, negb (has_char "%" s)) l = true →
  has_char "%" (String.concat sep l) = false.
Proof.
  intros Hsep. induction l as [|a l IH]; [done |].
  cbn [forallb]. intros H. apply andb_prop in H as [Ha Hl]. apply negb_true_iff in Ha.
  destruct l as [|b l]; [done |].
  change (String.concat sep (a :: b :: l)) with (a +:+ sep +:+ String.concat sep (b :: l)).
  rewrite !has_char_app, Ha, Hsep. by apply IH.
Qed.

Lemma str_list_percent l :
  forallb percent_free l = true → has_char "%" (str_list l) = false.
Proof.
  intros H. unfold str_list. rewrite !has_char_app.
  rewrite concat_percent; [done | done |].
  rewrite forallb_forall in *. intros r Hr.
  apply in_map_iff in Hr as (s & <- & Hs). specialize (H s Hs).
  unfold percent_free in H. apply negb_true_iff in H.
  by rewrite py_repr_percent.
Qed.

(** ** The warning text *)

(** Rewrite a format given as a closed text around its single [%s]. *)
Ltac format_closed :=
  match goal with
  | |- context [py_format ?f ?a] =>
      let p := eval vm_compute in (before_directive f) in
      let q := eval vm_compute in (after_directive f) in
      change f with (p +:+ "%s" +:+ q);
      rewrite (py_format_one p q a) by reflexivity
  end.

Lemma warning_text_ok udir umod :
  forallb percent_free udir = true → ∃ text, warning_text udir umod = Ok text.
Proof.
  intros Hfree. apply str_list_percent in Hfree.
  unfold warning_text. cbv zeta.
  generalize dependent (str_list udir). intros a Ha.
  generalize (str_list umod). intros b.
  destruct (nonempty_list udir), (nonempty_list umod); cbn [orb]; [| | | by eauto];
    unfold mbind, result_bind.
  - format_closed. unfold py_format. rewrite !append_assoc.
    match goal with |- context [format_aux (?P +:+ a +:+ ?T) (Some b)] =>
      rewrite (format_aux_literal P) by reflexivity;
      rewrite (format_aux_literal a) by done;
      change (format_aux T (Some b)) with (py_format T b)
    end.
    format_closed. by eauto.
  - format_closed. by eauto.
  - format_closed. by eauto.
Qed.

(** ** The entry points *)

Lemma cascade_calls_app tr1 tr2 :
  cascade_calls (tr1 ++ tr2) = cascade_calls tr1 ++ cascade_calls tr2.
Proof. unfold cascade_calls. apply List.filter_app. Qed.

Lemma cemit_info_delivers env message tr :
  delivers env →
  ∃ evs, cemit_info env message tr = (Ok tt, tr ++ evs) ∧ cascade_calls evs = [].
Proof.
  unfold delivers. intros Hdel.
  destruct (lookup_infochan env) as [|v|c] eqn:Hlook.
  - eexists. split; [apply cemit_info_unresolved; by rewrite Hlook | done].
  - eexists. split; [apply cemit_info_unresolved; by rewrite Hlook | done].
  - eexists. split; [| shelve].
    rewrite (cemit_info_resolved env c message tr Hlook), Hdel. reflexivity.
    Unshelve. done.
Qed.

(** One call of the reporter, for a reporter that delivers. *)
Ltac report Hdel :=
  match goal with
  | |- context [cemit_info ?env ?m ?tr] =>
      let evs := fresh "evs" in
      let Hrun := fresh "Hrun" in
      let Hevs := fresh "Hevs" in
      destruct (cemit_info_delivers env m tr Hdel) as (evs & Hrun & Hevs);
      rewrite Hrun; clear Hrun
  end.

(** Close a goal about a finished run: the trace is the initial one
    followed by the events met on the way. *)
Ltac finish_run :=
  eexists; split;
  [ rewrite <- ?app_assoc; reflexivity
  | rewrite ?cascade_calls_app;
    repeat match goal with H : cascade_calls _ = [] |- _ => rewrite H; clear H end;
    reflexivity ].

Lemma reload_modules_raises env scripts modified tr e :
  delivers env →
  get_all_scripts env = Ok scripts →
  reimport_modified env = Ok modified →
  forallb percent_free (unsafe_dir_modified modified) = true →
  nonempty_list (safe_modified scripts modified) = true →
  reimport_reimport env (safe_modified scripts modified) = Raise e →
  ∃ evs, reload_modules env tr = (Raise e, tr ++ evs) ∧ cascade_calls evs = [].
Proof.
  intros Hdel Hscripts Hmod Hfree Hsafe Hre.
  unfold reload_modules, cache_cascade, when, mbind, St_bind, lift, call.
  rewrite Hscripts. report Hdel. rewrite Hmod.
  destruct (warning_text_ok _ (unsafe_mod_modified scripts modified) Hfree) as [text ->].
  rewrite Hsafe. format_closed.
  destruct (nonempty_str text); [report Hdel | unfold mret, St_ret];
    report Hdel; rewrite Hre; finish_run.
Qed.

Lemma reload_modules_returns env scripts modified tr :
  delivers env →
  get_all_scripts env = Ok scripts →
  reimport_modified env = Ok modified →
  forallb percent_free (unsafe_dir_modified modified) = true →
  (nonempty_list (safe_modified scripts modified) = true →
   reimport_reimport env (safe_modified scripts modified) = Ok tt) →
  typeclassmodels_reset env = Ok tt → exithandler_clear env = Ok tt →
  channelhandler_update env = Ok tt → run_async env = Ok tt →
  ∃ evs, reload_modules env tr = (Ok tt, tr ++ evs)
         ∧ cascade_calls evs = [TypeclassReset; ExitClear; ChannelUpdate; RunAsync].
Proof.
  intros Hdel Hscripts Hmod Hfree Hre Hreset Hexit Hchan Hasync.
  unfold reload_modules, cache_cascade, when, mbind, St_bind, lift, call.
  rewrite Hscripts. report Hdel. rewrite Hmod.
  destruct (warning_text_ok _ (unsafe_mod_modified scripts modified) Hfree) as [text ->].
  rewrite Hreset, Hexit, Hchan, Hasync.
  destruct (nonempty_list (safe_modified scripts modified)) eqn:Hsafe.
  - rewrite (Hre eq_refl). format_closed.
    destruct (nonempty_str text); [report Hdel | unfold mret, St_ret];
      do 3 report Hdel; finish_run.
  - destruct (nonempty_str text); [report Hdel | unfold mret, St_ret];
      do 2 report Hdel; finish_run.
Qed.

Lemma reload_scripts_outcome env sel init_mode tr :
  delivers env →
  (reload_scripts env sel init_mode tr).1 = (λ _, tt) <$> validate env sel init_mode.
Proof.
  intros Hdel. unfold reload_scripts, mbind, St_bind, call.
  report Hdel. destruct (validate env sel init_mode) as [counts | e]; [| done].
  report Hdel. reflexivity.
Qed.

Lemma reload_commands_returns env tr :
  delivers env → (reload_commands env tr).1 = Ok tt.
Proof.
  intros Hdel. unfold reload_commands, mbind, St_bind, call.
  report Hdel. reflexivity.
Qed.

(** C5, as stated, fails: reload_modules has no exception handler, so a
    module that fails to re-import ends the call with that exception and
    no cache step or sweep is run. *)
Lemma failed_reimport_reaches_caller :
  reimport_reimport reimport_fails_env (safe_modified sample_scripts sample_modified)
    = Raise (Exn "SyntaxError")
  ∧ (reload_modules reimport_fails_env []).1 = Raise (Exn "SyntaxError")
  ∧ cascade_calls (reload_modules reimport_fails_env []).2 = [].
Proof. vm_compute. auto. Qed.

(** C5, amended: with a reporter that can finish its calls and module
    names free of percent signs, reload_commands returns; reload_scripts
    returns when the validation returns and raises what the validation
    raises; reload_modules returns when the script query, the change
    detection, the re-import, the three cache steps and the scheduling of
    the sweep all return.  A failure of the re-import is not caught:
    reload_modules raises it, and neither a cache step nor the sweep runs. *)
Theorem entry_points_outcome
    (env : Env) (scripts : list ScriptDB) (modified : list string)
    (sel : selector) (init_mode : bool) (tr : list event) :
  delivers env →
  get_all_scripts env = Ok scripts →
  reimport_modified env = Ok modified →
  forallb percent_free (unsafe_dir_modified modified) = true →
  let safe := safe_modified scripts modified in
  ((nonempty_list safe = true → reimport_reimport env safe = Ok tt) →
   typeclassmodels_reset env = Ok tt → exithandler_clear env = Ok tt →
   channelhandler_update env = Ok tt → run_async env = Ok tt →
   (reload_modules env tr).1 = Ok tt
   ∧ cascade_calls (reload_modules env tr).2
     = cascade_calls tr ++ [TypeclassReset; ExitClear; ChannelUpdate; RunAsync])
  ∧ (∀ e, nonempty_list safe = true → reimport_reimport env safe = Raise e →
       (reload_modules env tr).1 = Raise e
       ∧ cascade_calls (reload_modules env tr).2 = cascade_calls tr)
  ∧ (reload_scripts env sel init_mode tr).1 = (λ _, tt) <$> validate env sel init_mode
  ∧ (reload_commands env tr).1 = Ok tt.
Proof.
  intros Hdel Hscripts Hmod Hfree safe. subst safe.
  split; [| split; [| split]].
  - intros Hre Hreset Hexit Hchan Hasync.
    destruct (reload_modules_returns env scripts modified tr
                Hdel Hscripts Hmod Hfree Hre Hreset Hexit Hchan Hasync)
      as (evs & -> & Hevs).
    cbn [fst snd]. by rewrite cascade_calls_app, Hevs.
  - intros e Hsafe Hre.
    destruct (reload_modules_raises env scripts modified tr e
                Hdel Hscripts Hmod Hfree Hsafe Hre)
      as (evs & -> & Hevs).
    cbn [fst snd]. by rewrite cascade_calls_app, Hevs, app_nil_r.
  - by apply reload_scripts_outcome.
  - by apply reload_commands_returns.
Qed.

Lemma entry_points_outcome_witness :
  ((reload_modules no_channel_env []).1 = Ok tt
   ∧ cascade_calls (reload_modules no_channel_env []).2
     = [TypeclassReset; ExitClear; ChannelUpdate; RunAsync])
  ∧ ((reload_modules reimport_fails_env []).1 = Raise (Exn "SyntaxError")
     ∧ cascade_calls (reload_modules reimport_fails_env []).2 = [])
  ∧ (reload_scripts no_channel_env (mkSelector None None None None) false []).1 = Ok tt
  ∧ (reload_commands no_channel_env []).1 = Ok tt.
Proof.
  pose proof (entry_points_outcome no_channel_env sample_scripts sample_modified
                (mkSelector None None None None) false []
                eq_refl eq_refl eq_refl eq_refl) as (Hret & _ & Hscr & Hcmd).
  pose proof (entry_points_outcome reimport_fails_env sample_scripts sample_modified
                (mkSelector None None None None) false []
                eq_refl eq_refl eq_refl eq_refl) as (_ & Hraise & _).
  split; [| split; [| split]].
  - apply Hret; reflexivity.
  - apply (Hraise (Exn "SyntaxError")); reflexivity.
  - exact Hscr.
  - exact Hcmd.
Defined.

(** ** The cache cascade *)

(** C6, as stated, fails: the three cache steps are plain consecutive
    calls, so when the typeclass reset raises, the exit cache is not
    cleared and the channel cache is not updated. *)
Lemma failed_reset_skips_later_steps :
  typeclassmodels_reset reset_fails_env = Raise (Exn "KeyError")
  ∧ cache_cascade reset_fails_env [] = (Raise (Exn "KeyError"), [TypeclassReset])
  ∧ ¬ In ExitClear (cache_cascade reset_fails_env []).2
  ∧ ¬ In ChannelUpdate (cache_cascade reset_fails_env []).2.
Proof.
  vm_compute. repeat split; intros [H | []]; discriminate H.
Qed.

(** C6, amended: the cascade calls the typeclass reset, the exit-cache
    clear and the channel-cache update in this order; all three run when
    the first two return, and the cascade then ends as the channel update
    ends.  A step that raises ends the cascade with its exception and the
    steps after it are not attempted. *)
Theorem cascade_outcome (env : Env) (tr : list event) :
  (typeclassmodels_reset env = Ok tt → exithandler_clear env = Ok tt →
     cache_cascade env tr
     = (channelhandler_update env, tr ++ [TypeclassReset; ExitClear; ChannelUpdate]))
  ∧ (∀ e, typeclassmodels_reset env = Raise e →
     cache_cascade env tr = (Raise e, tr ++ [TypeclassReset]))
  ∧ (∀ e, typeclassmodels_reset env = Ok tt → exithandler_clear env = Raise e →
     cache_cascade env tr = (Raise e, tr ++ [TypeclassReset; ExitClear])).
Proof.
  unfold cache_cascade, mbind, St_bind, call.
  split; [| split].
  - intros -> ->. by rewrite <- !app_assoc.
  - by intros e ->.
  - intros e -> ->. by rewrite <- !app_assoc.
Qed.

Lemma cascade_outcome_witness :
  cache_cascade no_channel_env [] = (Ok tt, [TypeclassReset; ExitClear; ChannelUpdate])
  ∧ cache_cascade reset_fails_env [] = (Raise (Exn "KeyError"), [TypeclassReset]).
Proof.
  split.
  - apply (proj1 (cascade_outcome no_channel_env [])); reflexivity.
  - apply (proj1 (proj2 (cascade_outcome reset_fails_env [])) (Exn "KeyError")).
    reflexivity.
Defined.

(** ** The reset loop *)

Lemma for_each_ok (step : St Entity unit) (R : Entity → Entity → Prop) l :
  (∀ o, In o l → ∃ o', step o = (Ok tt, o') ∧ R o o') →
  ∃ l', for_each step l = (Ok tt, l') ∧ Forall2 R l l'.
Proof.
  induction l as [|o l IH]; intros Hstep.
  - exists []. by split; [| constructor].
  - destruct (Hstep o) as (o' & Ho & HR); [by left |].
    destruct IH as (l' & Hl & HF); [intros x Hx; apply Hstep; by right |].
    exists (o' :: l'). simpl. rewrite Ho, Hl. by split; [| constructor].
Qed.

Lemma locks_step_ok code o :
  (∃ ls, build_locks code (durable o) = Ok ls) →
  ∃ o', locks_reset code o = (Ok tt, o')
        ∧ durable o' = durable o
        ∧ build_locks code (durable o) = Ok (lock_cache o')
        ∧ cmdset_cache o' = cmdset_cache o.
Proof.
  intros [ls Hls]. unfold locks_reset. rewrite Hls. eexists. by split.
Qed.

Lemma object_step_ok code o :
  (∃ cs, build_cmdset code (durable o) = Ok cs) →
  (∃ ls, build_locks code (durable o) = Ok ls) →
  ∃ o', (cmdset_reset code;; locks_reset code) o = (Ok tt, o')
        ∧ durable o' = durable o
        ∧ build_locks code (durable o) = Ok (lock_cache o')
        ∧ build_cmdset code (durable o) = Ok (cmdset_cache o').
Proof.
  intros [cs Hcs] [ls Hls].
  unfold mbind, St_bind, cmdset_reset, locks_reset. rewrite Hcs. simpl. rewrite Hls.
  eexists. by split.
Qed.

Lemma for_all_of_ok cat step (db : Database) l' :
  for_each step (db cat) = (Ok tt, l') →
  for_all_of cat step db = (Ok tt, set_instances cat l' db).
Proof. intros H. unfold for_all_of. by rewrite H. Qed.

(** Whatever the rebuilds do, a step of the loop leaves the stored
    columns of its instance alone. *)
Lemma locks_reset_durable code o : durable (locks_reset code o).2 = durable o.
Proof. unfold locks_reset. by destruct (build_locks code (durable o)). Qed.

Lemma cmdset_reset_durable code o : durable (cmdset_reset code o).2 = durable o.
Proof. unfold cmdset_reset. by destruct (build_cmdset code (durable o)). Qed.

Lemma object_step_durable code o :
  durable ((cmdset_reset code;; locks_reset code) o).2 = durable o.
Proof.
  unfold mbind, St_bind.
  pose proof (cmdset_reset_durable code o) as Hc.
  destruct (cmdset_reset code o) as [[[]|e] o1]; simpl in *; [| done].
  by rewrite locks_reset_durable.
Qed.

Lemma for_each_durable (step : St Entity unit) l :
  (∀ o, durable (step o).2 = durable o) →
  List.map durable (for_each step l).2 = List.map durable l.
Proof.
  intros Hstep. induction l as [|o l IH]; [done |].
  simpl. pose proof (Hstep o) as Ho.
  destruct (step o) as [[[]|e] o']; simpl in *.
  - destruct (for_each step l) as [r l']. simpl in *. by rewrite Ho, IH.
  - by rewrite Ho.
Qed.

Lemma for_all_of_durable cat (step : St Entity unit) (db : Database) c :
  (∀ o, durable (step o).2 = durable o) →
  List.map durable ((for_all_of cat step db).2 c) = List.map durable (db c).
Proof.
  intros Hstep. unfold for_all_of.
  pose proof (for_each_durable step (db cat) Hstep) as Hl.
  destruct (for_each step (db cat)) as [r l]. simpl in *.
  unfold set_instances. by destruct (decide (c = cat)) as [-> |].
Qed.

Lemma bind_durable (first : St Database unit) (rest : St Database unit) :
  (∀ db c, List.map durable ((first db).2 c) = List.map durable (db c)) →
  (∀ db c, List.map durable ((rest db).2 c) = List.map durable (db c)) →
  ∀ db c, List.map durable (((first;; rest) db).2 c) = List.map durable (db c).
Proof.
  intros Hfirst Hrest db c. unfold mbind, St_bind.
  pose proof (Hfirst db c) as H1.
  destruct (first db) as [[[]|e] db1]; simpl in *; [| done].
  by rewrite Hrest.
Qed.

Lemma reset_loop_durable code (db : Database) c :
  List.map durable ((run_reset_loop code db).2 c) = List.map durable (db c).
Proof.
  revert db c. unfold run_reset_loop.
  repeat (apply bind_durable;
          [intros db c; apply for_all_of_durable;
           first [apply object_step_durable | apply locks_reset_durable] |]).
  intros db c. apply for_all_of_durable, locks_reset_durable.
Qed.

(** C9, as stated, fails: lines 109-114 have no exception handler, so a
    reset that raises ends the loop.  Here the lock rebuild of the second
    object raises; the script that comes later is a live instance whose
    own rebuild would succeed, and it keeps its old lock cache. *)
Lemma failed_reset_leaves_later_instances_stale :
  (run_reset_loop failing_code sample_db).1 = Raise (Exn "ImportError")
  ∧ In ticker (sample_db CatScript)
  ∧ build_locks failing_code (durable ticker)
    = Ok ["examine:perm(Wizards)"; "game.scripts.Ticker"]
  ∧ (run_reset_loop failing_code sample_db).2 CatScript = [ticker]
  ∧ lock_cache ticker = ["stale"].
Proof. vm_compute. repeat split; auto. Qed.

(** C9, amended: with handlers that only rebuild their own cache, the
    reset loop leaves in every category the same instances in the same
    order with their stored columns unchanged, whether or not it
    completes.  When no reset raises it returns, the lock cache of every
    instance of every category is the one rebuilt from the loaded code,
    and the command-set cache is the rebuilt one for objects and is left
    as it was in every other category. *)
Theorem reset_loop_rebuilds_caches (code : Code) (db : Database) :
  (∀ cat, List.map durable ((run_reset_loop code db).2 cat) = List.map durable (db cat))
  ∧ ((∀ cat o, In o (db cat) → ∃ ls, build_locks code (durable o) = Ok ls) →
     (∀ o, In o (db CatObject) → ∃ cs, build_cmdset code (durable o) = Ok cs) →
     (run_reset_loop code db).1 = Ok tt
     ∧ ∀ cat,
         Forall2
           (λ o o',
              durable o' = durable o
              ∧ build_locks code (durable o) = Ok (lock_cache o')
              ∧ if behavior_bearing cat
                then build_cmdset code (durable o) = Ok (cmdset_cache o')
                else cmdset_cache o' = cmdset_cache o)
           (db cat) ((run_reset_loop code db).2 cat)).
Proof.
  split; [intros cat; apply reset_loop_durable |].
  intros Hlocks Hcmd.
  destruct (for_each_ok (cmdset_reset code;; locks_reset code)
              (λ o o', durable o' = durable o
                       ∧ build_locks code (durable o) = Ok (lock_cache o')
                       ∧ build_cmdset code (durable o) = Ok (cmdset_cache o'))
              (db CatObject)) as (objs & Hobjs & Fobjs).
  { intros o Ho. apply object_step_ok; [by apply Hcmd | by apply (Hlocks CatObject)]. }
  assert (Hother : ∀ cat, ∃ l',
             for_each (locks_reset code) (db cat) = (Ok tt, l')
             ∧ Forall2 (λ o o', durable o' = durable o
                                ∧ build_locks code (durable o) = Ok (lock_cache o')
                                ∧ cmdset_cache o' = cmdset_cache o)
                       (db cat) l').
  { intros cat. apply for_each_ok. intros o Ho.
    apply locks_step_ok. by apply (Hlocks cat). }
  destruct (Hother CatScript) as (scrs & Hscrs & Fscrs).
  destruct (Hother CatPlayer) as (plys & Hplys & Fplys).
  destruct (Hother CatHelp) as (hlps & Hhlps & Fhlps).
  destruct (Hother CatMsg) as (msgs & Hmsgs & Fmsgs).
  destruct (Hother CatChannel) as (chns & Hchns & Fchns).
  unfold run_reset_loop.
  set (object_step := cmdset_reset code;; locks_reset code) in *.
  unfold mbind, St_bind.
  rewrite (for_all_of_ok CatObject object_step db objs Hobjs).
  set (db1 := set_instances CatObject objs db).
  rewrite (for_all_of_ok CatScript (locks_reset code) db1 scrs Hscrs).
  set (db2 := set_instances CatScript scrs db1).
  rewrite (for_all_of_ok CatPlayer (locks_reset code) db2 plys Hplys).
  set (db3 := set_instances CatPlayer plys db2).
  rewrite (for_all_of_ok CatHelp (locks_reset code) db3 hlps Hhlps).
  set (db4 := set_instances CatHelp hlps db3).
  rewrite (for_all_of_ok CatMsg (locks_reset code) db4 msgs Hmsgs).
  set (db5 := set_instances CatMsg msgs db4).
  rewrite (for_all_of_ok CatChannel (locks_reset code) db5 chns Hchns).
  split; [done |].
  intros []; unfold db5, db4, db3, db2, db1, set_instances; simpl; assumption.
Qed.

Lemma reset_loop_rebuilds_caches_witness :
  (∀ cat, List.map durable ((run_reset_loop failing_code sample_db).2 cat)
          = List.map durable (sample_db cat))
  ∧ (run_reset_loop sample_code sample_db).1 = Ok tt
  ∧ ∀ cat,
      Forall2
        (λ o o',
           durable o' = durable o
           ∧ build_locks sample_code (durable o) = Ok (lock_cache o')
           ∧ if behavior_bearing cat
             then build_cmdset sample_code (durable o) = Ok (cmdset_cache o')
             else cmdset_cache o' = cmdset_cache o)
        (sample_db cat) ((run_reset_loop sample_code sample_db).2 cat).
Proof.
  split.
  - apply (proj1 (reset_loop_rebuilds_caches failing_code sample_db)).
  - apply (proj2 (reset_loop_rebuilds_caches sample_code sample_db)).
    + intros cat o Ho. eexists. reflexivity.
    + intros o Ho. eexists. reflexivity.
Defined.

Example reset_loop_sample :
  (run_reset_loop sample_code sample_db).2 CatObject
  = [mkEntity (durable limbo) ["cmdsets.room@new"]
              ["get:false()"; "game.objects.room.Room"];
     mkEntity (durable sword) ["cmdsets.wield@new"]
              ["get:all()"; "game.objects.weapon.Sword"]]
  ∧ (run_reset_loop sample_code sample_db).2 CatScript
    = [mkEntity (durable ticker) ["left alone"]
                ["examine:perm(Wizards)"; "game.scripts.Ticker"]].
Proof. vm_compute. auto. Qed.

(** A rebuild that raises ends the loop: the instances after it keep
    their old caches. *)
Example reset_loop_stops_at_failure :
  (run_reset_loop failing_code sample_db).1 = Raise (Exn "ImportError")
  ∧ (run_reset_loop failing_code sample_db).2 CatObject
    = [mkEntity (durable limbo) ["cmdsets.room@new"]
                ["get:false()"; "game.objects.room.Room"];
       mkEntity (durable sword) ["cmdsets.wield@new"] ["stale"]]
  ∧ (run_reset_loop failing_code sample_db).2 CatScript = [ticker].
Proof. vm_compute. auto. Qed.

(** ** The whole cycle on the sample server *)

Example reload_modules_sample_warning :
  (reload_modules no_setting_env []).1 = Ok tt
  ∧ nth_error (logged (reload_modules no_setting_env []).2) 2
    = Some (nl +:+ " WARNING: Some modules can not be reloaded"
        +:+ nl +:+ " since it would not be safe to do so." +:+ nl
        +:+ nl +:+ "-The following module(s) is/are located in the src/ directory and"
        +:+ nl +:+ " should not be reloaded without a server reboot:"
        +:+ nl +:+ "  ['src.scripts.scripts']" +:+ nl
        +:+ nl +:+ "-The following modules contains at least one Script class with a timer"
        +:+ nl +:+ " component and which has already spawned instances - these cannot be "
        +:+ nl +:+ " safely cleaned from memory on the fly. Stop all the affected scripts "
        +:+ nl +:+ " or restart the server to safely reload:"
        +:+ nl +:+ "  ['game.objects.monster', 'src.commands.default.general']" +:+ nl)
  ∧ List.filter (λ ev, match ev with LogInfo _ => false | _ => true end)
      (reload_modules no_setting_env []).2
    = [AppCacheCleaned;
       Reimport ["game.commands.default.look"; "src.commands.default.help"];
       TypeclassReset; ExitClear; ChannelUpdate; RunAsync].
Proof. vm_compute. auto. Qed.

(** * Further properties of the classifier *)

Lemma filter_sublist {A} (f : A → bool) (l : list A) : sublist (List.filter f l) l.
Proof.
  induction l as [|x l IH]; simpl; [constructor |].
  destruct (f x); by constructor.
Qed.

Lemma filter_split_perm {A} (f : A → bool) (l : list A) :
  l ≡ₚ List.filter f l ++ List.filter (λ x, negb (f x)) l.
Proof.
  induction l as [|x l IH]; simpl; [done |].
  destruct (f x); simpl.
  - by constructor.
  - rewrite <- Permutation_middle. by constructor.
Qed.

Lemma filter_none {A} (f : A → bool) (l : list A) :
  (∀ x, In x l → f x = false) → List.filter f l = [].
Proof.
  induction l as [|x l IH]; intros H; simpl; [done |].
  rewrite (H x) by (by left). apply IH. intros y Hy. apply H. by right.
Qed.

Lemma filter_all {A} (f : A → bool) (l : list A) :
  (∀ x, In x l → f x = true) → List.filter f l = l.
Proof.
  induction l as [|x l IH]; intros H; simpl; [done |].
  rewrite (H x) by (by left). f_equal. apply IH. intros y Hy. apply H. by right.
Qed.

Lemma filter_sublist_impl {A} (f g : A → bool) (l : list A) :
  (∀ x, f x = true → g x = true) → sublist (List.filter f l) (List.filter g l).
Proof.
  intros Himpl. induction l as [|x l IH]; simpl; [constructor |].
  destruct (f x) eqn:Hf.
  - rewrite (Himpl x Hf). by constructor.
  - destruct (g x); [by constructor | done].
Qed.

(** The two [not in] tests of lines 71 and 73 as tests on the module. *)
Lemma unsafe_dir_modified_filter modified :
  unsafe_dir_modified modified
  = List.filter (λ m, negb (safe_dir_to_reload protected_dirs except_dirs m)) modified.
Proof.
  unfold unsafe_dir_modified. apply filter_ext_in. intros m Hm. f_equal.
  destruct (safe_dir_to_reload protected_dirs except_dirs m) eqn:Hd.
  - apply py_in_In, In_safe_dir_modified. auto.
  - apply py_in_false. rewrite In_safe_dir_modified. intros [_ H]. congruence.
Qed.

Lemma unsafe_mod_modified_filter scripts modified :
  unsafe_mod_modified scripts modified
  = List.filter (λ m, negb (safe_mod_to_reload (unsafe_modules scripts) m))
                (safe_dir_modified modified).
Proof.
  unfold unsafe_mod_modified. apply filter_ext_in. intros m Hm. f_equal.
  apply In_safe_dir_modified in Hm as [Hm Hd].
  destruct (safe_mod_to_reload (unsafe_modules scripts) m) eqn:Hs.
  - apply py_in_In, In_safe_modified. auto.
  - apply py_in_false. rewrite In_safe_modified. intros (_ & _ & H). congruence.
Qed.

(** X1: every occurrence of a module in the modified list goes to exactly
    one of the three lists: each list keeps the order of the input, and
    together they are a rearrangement of it, repetitions included. *)
Theorem classification_keeps_occurrences (scripts : list ScriptDB) (modified : list string) :
  sublist (safe_modified scripts modified) modified
  ∧ sublist (unsafe_dir_modified modified) modified
  ∧ sublist (unsafe_mod_modified scripts modified) modified
  ∧ modified ≡ₚ safe_modified scripts modified
                ++ unsafe_dir_modified modified
                ++ unsafe_mod_modified scripts modified.
Proof.
  rewrite unsafe_dir_modified_filter, unsafe_mod_modified_filter.
  unfold safe_modified, safe_dir_modified.
  repeat split.
  - etrans; apply filter_sublist.
  - apply filter_sublist.
  - etrans; apply filter_sublist.
  - rewrite (filter_split_perm (safe_dir_to_reload protected_dirs except_dirs) modified) at 1.
    rewrite (filter_split_perm (safe_mod_to_reload (unsafe_modules scripts))
               (List.filter (safe_dir_to_reload protected_dirs except_dirs) modified)) at 1.
    rewrite <- !app_assoc. apply Permutation_app_head, Permutation_app_comm.
Qed.

(** X2: a modified module is unsafe-dir-modified exactly when its name
    starts with [src.] and does not start with [src.commands.default.];
    no script has a say in it. *)
Theorem unsafe_dir_is_src_outside_default_commands (modified : list string) (m : string) :
  In m (unsafe_dir_modified modified)
  ↔ In m modified
    ∧ startswith m "src." = true
    ∧ startswith m "src.commands.default." = false.
Proof.
  rewrite In_unsafe_dir_modified.
  unfold safe_dir_to_reload, protected_dirs, except_dirs. simpl.
  destruct (startswith m "src."), (startswith m "src.commands.default.");
    simpl; intuition congruence.
Qed.

(** X3: the timer rule is closed under prefixes: when a name is rejected
    by the timer rule, every modified module that passes the directory
    test and whose name is a prefix of it is unsafe-mod-modified. *)
Theorem prefixes_of_blocked_are_blocked
    (scripts : list ScriptDB) (modified : list string) (m ancestor : string) :
  In ancestor modified →
  safe_dir_to_reload protected_dirs except_dirs ancestor = true →
  startswith m ancestor = true →
  safe_mod_to_reload (unsafe_modules scripts) m = false →
  In ancestor (unsafe_mod_modified scripts modified).
Proof.
  intros Hin Hdir Hpre Hblocked.
  apply In_unsafe_mod_modified. repeat split; [done | done |].
  apply safe_mod_false in Hblocked as (p & Hp & Hpm).
  apply safe_mod_false. exists p. split; [done |].
  unfold startswith in *. by apply prefix_trans with m.
Qed.

Lemma prefixes_of_blocked_are_blocked_witness :
  In "game.objects" (unsafe_mod_modified sample_scripts ["game.objects"; "game.world"]).
Proof.
  apply (prefixes_of_blocked_are_blocked sample_scripts ["game.objects"; "game.world"]
           "game.objects.monster" "game.objects").
  - simpl. auto.
  - reflexivity.
  - reflexivity.
  - vm_compute. reflexivity.
Defined.

Lemma safe_mod_ext (unsafe1 unsafe2 : list string) (m : string) :
  (∀ p, In p unsafe1 ↔ In p unsafe2) →
  safe_mod_to_reload unsafe1 m = safe_mod_to_reload unsafe2 m.
Proof.
  intros Hsame.
  destruct (safe_mod_to_reload unsafe2 m) eqn:H2.
  - destruct (safe_mod_to_reload unsafe1 m) eqn:H1; [done |].
    apply safe_mod_false in H1 as (p & Hp & Hpm).
    assert (safe_mod_to_reload unsafe2 m = false); [| congruence].
    apply safe_mod_false. exists p. split; [by apply Hsame | done].
  - apply safe_mod_false in H2 as (p & Hp & Hpm).
    apply safe_mod_false. exists p. split; [by apply Hsame | done].
Qed.

Lemma same_unsafe_same_lists scripts1 scripts2 modified :
  (∀ p, In p (unsafe_modules scripts1) ↔ In p (unsafe_modules scripts2)) →
  safe_modified scripts1 modified = safe_modified scripts2 modified
  ∧ unsafe_mod_modified scripts1 modified = unsafe_mod_modified scripts2 modified.
Proof.
  intros Hsame.
  assert (Hsafe : safe_modified scripts1 modified = safe_modified scripts2 modified).
  { unfold safe_modified. apply filter_ext. intros m. by apply safe_mod_ext. }
  split; [done |]. unfold unsafe_mod_modified. by rewrite Hsafe.
Qed.

(** X4: the classification depends on the scripts only through the set
    of them: listing the same scripts in another order or more than once
    gives the same safe-modified and unsafe-mod-modified lists.  The
    removal of duplicates at line 49 has no effect on the outcome either. *)
Theorem classification_ignores_script_order
    (scripts1 scripts2 : list ScriptDB) (modified : list string) :
  (∀ s, In s scripts1 ↔ In s scripts2) →
  safe_modified scripts1 modified = safe_modified scripts2 modified
  ∧ unsafe_mod_modified scripts1 modified = unsafe_mod_modified scripts2 modified
  ∧ ∀ m, safe_mod_to_reload (unsafe_modules scripts1) m
         = safe_mod_to_reload (collect_unsafe scripts1) m.
Proof.
  intros Hsame.
  assert (Hpaths : ∀ p, In p (unsafe_modules scripts1) ↔ In p (unsafe_modules scripts2)).
  { intros p. rewrite !unsafe_modules_In.
    split; intros (s & Hs & H); exists s; (split; [by apply Hsame | done]). }
  destruct (same_unsafe_same_lists scripts1 scripts2 modified Hpaths) as [H1 H2].
  repeat split; [done | done |].
  intros m. apply safe_mod_ext. intros p. unfold unsafe_modules. apply list_set_In.
Qed.

Lemma classification_ignores_script_order_witness :
  safe_modified [timer_script; monster_script] sample_modified
  = safe_modified [monster_script; timer_script; monster_script] sample_modified
  ∧ unsafe_mod_modified [timer_script; monster_script] sample_modified
    = unsafe_mod_modified [monster_script; timer_script; monster_script] sample_modified
  ∧ ∀ m, safe_mod_to_reload (unsafe_modules [timer_script; monster_script]) m
         = safe_mod_to_reload (collect_unsafe [timer_script; monster_script]) m.
Proof.
  apply (classification_ignores_script_order
           [timer_script; monster_script]
           [monster_script; timer_script; monster_script] sample_modified).
  intros s. simpl. tauto.
Defined.

(** X5: a further script can only take modules away from the
    safe-modified list and add modules to the unsafe-mod-modified list;
    both lists stay in the order of the input. *)
Theorem more_scripts_fewer_safe
    (s : ScriptDB) (scripts : list ScriptDB) (modified : list string) :
  sublist (safe_modified (s :: scripts) modified) (safe_modified scripts modified)
  ∧ sublist (unsafe_mod_modified scripts modified)
            (unsafe_mod_modified (s :: scripts) modified).
Proof.
  assert (Hmono : ∀ m, safe_mod_to_reload (unsafe_modules (s :: scripts)) m = true →
                       safe_mod_to_reload (unsafe_modules scripts) m = true).
  { intros m Hm.
    destruct (safe_mod_to_reload (unsafe_modules scripts) m) eqn:Hold; [done |].
    apply safe_mod_false in Hold as (p & Hp & Hpm).
    assert (safe_mod_to_reload (unsafe_modules (s :: scripts)) m = false); [| congruence].
    apply safe_mod_false. exists p. split; [| done].
    apply unsafe_modules_In in Hp as (s' & Hs' & H).
    apply unsafe_modules_In. exists s'. split; [by right | done]. }
  split.
  - unfold safe_modified. by apply filter_sublist_impl.
  - rewrite !unsafe_mod_modified_filter. apply filter_sublist_impl.
    intros m Hm. apply negb_true_iff in Hm. apply negb_true_iff.
    destruct (safe_mod_to_reload (unsafe_modules (s :: scripts)) m) eqn:Hnew; [| done].
    apply Hmono in Hnew. congruence.
Qed.

(** X6: scripts without a timer (interval -1 or below) and scripts
    without a typeclass path block nothing: when every script is of that
    kind, and in particular when there is no script at all, no module is
    unsafe-mod-modified and the safe-modified list is the list of the
    modules that pass the directory test. *)
Theorem untimed_scripts_block_nothing (scripts : list ScriptDB) (modified : list string) :
  (∀ s, In s scripts → interval s <= -1 ∨ path_truthy (typeclass_path s) = false) →
  unsafe_mod_modified scripts modified = []
  ∧ safe_modified scripts modified = safe_dir_modified modified.
Proof.
  intros Hnone.
  assert (Hsafe : ∀ m, safe_mod_to_reload (unsafe_modules scripts) m = true).
  { intros m. destruct (safe_mod_to_reload (unsafe_modules scripts) m) eqn:H; [done |].
    apply safe_mod_false in H as (p & Hp & _).
    apply unsafe_modules_In in Hp as (s & Hs & Hi & Hp & Hne).
    destruct (Hnone s Hs) as [Hle | Hpath]; [lia |].
    rewrite Hp in Hpath. apply path_truthy_Some in Hne. congruence. }
  split.
  - rewrite unsafe_mod_modified_filter. apply filter_none. intros m _. by rewrite Hsafe.
  - unfold safe_modified. apply filter_all. intros m _. apply Hsafe.
Qed.

Lemma untimed_scripts_block_nothing_witness :
  unsafe_mod_modified [pathless_script; untimed_script] sample_modified = []
  ∧ safe_modified [pathless_script; untimed_script] sample_modified
    = safe_dir_modified sample_modified.
Proof.
  apply (untimed_scripts_block_nothing [pathless_script; untimed_script] sample_modified).
  intros s [<- | [<- | []]]; simpl; [by right | left; lia].
Defined.

(** X7: classifying the safe-modified list again changes nothing: all of
    it is safe-modified and none of it is rejected by either rule. *)
Theorem classification_idempotent (scripts : list ScriptDB) (modified : list string) :
  safe_modified scripts (safe_modified scripts modified) = safe_modified scripts modified
  ∧ unsafe_dir_modified (safe_modified scripts modified) = []
  ∧ unsafe_mod_modified scripts (safe_modified scripts modified) = [].
Proof.
  assert (Hin : ∀ m, In m (safe_modified scripts modified) →
                     safe_dir_to_reload protected_dirs except_dirs m = true
                     ∧ safe_mod_to_reload (unsafe_modules scripts) m = true).
  { intros m Hm. apply In_safe_modified in Hm. tauto. }
  assert (Hdir : safe_dir_modified (safe_modified scripts modified)
                 = safe_modified scripts modified).
  { unfold safe_dir_modified. apply filter_all. intros m Hm. by apply Hin. }
  repeat split.
  - unfold safe_modified at 1. rewrite Hdir. apply filter_all. intros m Hm. by apply Hin.
  - rewrite unsafe_dir_modified_filter. apply filter_none. intros m Hm.
    apply Hin in Hm as [-> _]. done.
  - rewrite unsafe_mod_modified_filter, Hdir. apply filter_none. intros m Hm.
    apply Hin in Hm as [_ ->]. done.
Qed.

(** * Further properties of the reporter *)

Lemma cemit_info_any env message tr :
  ∃ r rest, cemit_info env message tr = (r, tr ++ LogInfo message :: rest)
            ∧ collab_calls rest = [] ∧ (length rest <= 1)%nat.
Proof.
  unfold cemit_info, mbind, St_bind, call, lift.
  destruct (infochan_truthy (lookup_infochan env)).
  - destruct (lookup_infochan env) as [|v|c].
    + exists (Raise (Exn "AttributeError")), []. simpl. auto.
    + exists (Raise (Exn "AttributeError")), []. simpl. auto.
    + eexists _, [_]. rewrite <- app_assoc. simpl. auto.
  - eexists _, [_]. rewrite <- app_assoc. simpl. auto.
Qed.

(** X8: whatever the configuration, and whether it returns or raises,
    the reporter first writes the message to the log; after that it makes
    at most one more call, which is a channel send or a second log line,
    never a call on caches, scripts or modules. *)
Theorem reporter_logs_first (env : Env) (message : string) (tr : list event) :
  ∃ rest, (cemit_info env message tr).2 = tr ++ LogInfo message :: rest
          ∧ collab_calls rest = []
          ∧ (length rest <= 1)%nat.
Proof.
  destruct (cemit_info_any env message tr) as (r & rest & -> & Hcalls & Hlen).
  exists rest. auto.
Qed.

(** X9: when the setting names a channel and the lookup finds it, the
    message is logged once, without the no-channel marker, and the channel
    is sent one text whose lines are the lines of the message in order,
    each behind the channel key in brackets; this holds whether the send
    then returns or raises. *)
Theorem resolved_channel_gets_tagged_lines
    (env : Env) (k : string) (others : list string) (c : Channel)
    (message : string) (tr : list event) :
  CHANNEL_MUDINFO env = Ok (PyTuple (k :: others)) →
  get_channel env k = Ok (Some c) →
  has_char "010" (key c) = false →
  (cemit_info env message tr).2
  = tr ++ [LogInfo message; ChannelMsg (key c) (tag_lines (key c) message)]
  ∧ split_nl (tag_lines (key c) message)
    = List.map (λ line, "[" +:+ key c +:+ "]: " +:+ line) (split_nl message).
Proof.
  intros Hset Hget Hkey.
  assert (Hlook : lookup_infochan env = IcChannel c).
  { unfold lookup_infochan. rewrite Hset. simpl. by rewrite Hget. }
  rewrite (cemit_info_resolved env c message tr Hlook).
  split; [done | by apply split_tag_lines].
Qed.

Lemma resolved_channel_gets_tagged_lines_witness :
  (cemit_info send_fails_env two_lines []).2
  = [LogInfo two_lines; ChannelMsg "MUDinfo" (tag_lines "MUDinfo" two_lines)]
  ∧ split_nl (tag_lines "MUDinfo" two_lines) = ["[MUDinfo]: line1"; "[MUDinfo]: line2"].
Proof.
  apply (resolved_channel_gets_tagged_lines send_fails_env "MUDinfo"
           ["Informative messages"; "send:all()"] mudinfo two_lines []);
    reflexivity.
Defined.

(** X10: when the setting is a non-empty tuple and the channel lookup
    itself raises, the handler swallows that exception but [infochan] is
    left holding the tuple: the call logs the message, writes no
    no-channel line, sends nothing, and raises AttributeError in place of
    the exception of the lookup. *)
Theorem lookup_exception_becomes_attribute_error
    (env : Env) (k : string) (others : list string) (e : exn)
    (message : string) (tr : list event) :
  CHANNEL_MUDINFO env = Ok (PyTuple (k :: others)) →
  get_channel env k = Raise e →
  cemit_info env message tr = (Raise (Exn "AttributeError"), tr ++ [LogInfo message]).
Proof. intros Hset Hget. by apply cemit_info_lookup_raised with k others e. Qed.

Lemma lookup_exception_becomes_attribute_error_witness :
  cemit_info lookup_raises_env "hello" []
  = (Raise (Exn "AttributeError"), [LogInfo "hello"]).
Proof.
  apply (lookup_exception_becomes_attribute_error lookup_raises_env "MUDinfo"
           ["Informative messages"; "send:all()"] (Exn "DatabaseError") "hello" []);
    reflexivity.
Defined.

Lemma concat_split_nl s : String.concat nl (split_nl s) = s.
Proof.
  induction s as [|c s IH]; [done |].
  destruct (split_nl_cons s) as (line & lines & Hs).
  simpl. rewrite Hs in *.
  destruct (Ascii.eqb c "010") eqn:Hc.
  - apply Ascii.eqb_eq in Hc as ->.
    change (String.concat nl ("" :: line :: lines))
      with ("" +:+ nl +:+ String.concat nl (line :: lines)).
    by rewrite IH.
  - destruct lines as [|l lines].
    + simpl in *. by rewrite IH.
    + change (String.concat nl (String c line :: l :: lines))
        with (String c (line +:+ nl +:+ String.concat nl (l :: lines))).
      by rewrite <- IH.
Qed.

(** X11: tagging a message is a line-by-line operation: joining the
    lines of a text with newlines gives the text back, and the tagged text
    has the lines of the message, as many and in the same order, each
    behind the bracketed tag; an empty message gives one tagged line. *)
Theorem tag_lines_line_by_line (tag message : string) :
  has_char "010" tag = false →
  String.concat nl (split_nl message) = message
  ∧ split_nl (tag_lines tag message)
    = List.map (λ line, "[" +:+ tag +:+ "]: " +:+ line) (split_nl message)
  ∧ length (split_nl (tag_lines tag message)) = length (split_nl message)
  ∧ tag_lines tag "" = "[" +:+ tag +:+ "]: ".
Proof.
  intros Htag. split; [apply concat_split_nl |].
  split; [by apply split_tag_lines |].
  split; [by rewrite split_tag_lines, length_map |].
  unfold tag_lines. simpl. by rewrite append_empty_r.
Qed.

Lemma tag_lines_line_by_line_witness :
  String.concat nl (split_nl two_lines) = two_lines
  ∧ split_nl (tag_lines "NO MUDINFO CHANNEL" two_lines)
    = ["[NO MUDINFO CHANNEL]: line1"; "[NO MUDINFO CHANNEL]: line2"]
  ∧ length (split_nl (tag_lines "NO MUDINFO CHANNEL" two_lines)) = 2%nat
  ∧ tag_lines "NO MUDINFO CHANNEL" "" = "[NO MUDINFO CHANNEL]: ".
Proof. apply (tag_lines_line_by_line "NO MUDINFO CHANNEL" two_lines). reflexivity. Defined.

(** * Further properties of the entry points *)

Lemma collab_calls_app tr1 tr2 :
  collab_calls (tr1 ++ tr2) = collab_calls tr1 ++ collab_calls tr2.
Proof. unfold collab_calls. apply List.filter_app. Qed.

Lemma cemit_info_quiet env message tr :
  ∃ r evs, cemit_info env message tr = (r, tr ++ evs) ∧ collab_calls evs = [].
Proof.
  destruct (cemit_info_any env message tr) as (r & rest & Hrun & Hcalls & _).
  exists r, (LogInfo message :: rest). auto.
Qed.

(** One call of the reporter in any environment: it returns or raises. *)
Ltac report_any :=
  match goal with
  | |- context [cemit_info ?env ?m ?tr] =>
      let r := fresh "r" in
      let evs := fresh "evs" in
      let Hrun := fresh "Hrun" in
      let Hquiet := fresh "Hquiet" in
      destruct (cemit_info_quiet env m tr) as (r & evs & Hrun & Hquiet);
      rewrite Hrun; clear Hrun; destruct r as [[]|?]; cbv beta iota
  end.

(** One step of a cycle: a call of the reporter, a test, or the outcome
    of a collaborator. *)
Ltac cycle_step :=
  first
    [ report_any
    | match goal with
      | |- context [if ?b then _ else _] => destruct b eqn:?; cbv beta iota
      end
    | match goal with
      | |- context [match ?x with Ok _ => _ | Raise _ => _ end] =>
          destruct x as [?|?] eqn:?; cbv beta iota
      end ].

(** The collaborator calls of a finished run. *)
Ltac finish_calls :=
  cbn [snd]; rewrite ?collab_calls_app;
  repeat match goal with H : collab_calls _ = [] |- _ => rewrite H; clear H end;
  rewrite <- ?app_assoc;
  eexists; split; [first [reflexivity | symmetry; apply app_nil_r] |]; simpl; split;
  [ by eexists
  | intros mods Hin; repeat destruct Hin as [Hin | Hin]; try done; simplify_eq; eauto ].

(** X12: in every environment, whatever raises and wherever, the calls
    reload_modules makes on caches, modules and the sweep are an initial
    part of one fixed sequence: the AppCache clean, the re-import when the
    safe-modified list is not empty, the typeclass reset, the exit-cache
    clear, the channel-cache update, the scheduling of the sweep.  Nothing
    is called twice or out of order, and the only list of modules ever
    re-imported is the safe-modified list. *)
Theorem reload_modules_call_order (env : Env) (tr : list event) :
  ∃ calls,
    collab_calls (reload_modules env tr).2 = collab_calls tr ++ calls
    ∧ calls `prefix_of` planned_calls env
    ∧ ∀ mods, In (Reimport mods) calls →
        ∃ scripts modified,
          get_all_scripts env = Ok scripts
          ∧ reimport_modified env = Ok modified
          ∧ mods = safe_modified scripts modified.
Proof.
  unfold planned_calls, reload_modules, cache_cascade, when, mbind, St_bind, lift, call,
    mret, St_ret.
  repeat cycle_step; finish_calls.
Qed.

(** * Further properties of the reset loop *)

Lemma for_all_of_eq cat step (db : Database) :
  for_all_of cat step db
  = ((for_each step (db cat)).1, set_instances cat (for_each step (db cat)).2 db).
Proof. unfold for_all_of. by destruct (for_each step (db cat)). Qed.

Lemma set_instances_ne cat l (db : Database) c :
  c ≠ cat → set_instances cat l db c = db c.
Proof. intros Hne. unfold set_instances. by destruct (decide (c = cat)). Qed.

Lemma set_instances_eq cat l (db : Database) : set_instances cat l db cat = l.
Proof. unfold set_instances. by destruct (decide (cat = cat)). Qed.

Lemma run_reset_loop_steps code :
  run_reset_loop code
  = (for_all_of CatObject (step_of code CatObject);;
     for_all_of CatScript (step_of code CatScript);;
     for_all_of CatPlayer (step_of code CatPlayer);;
     for_all_of CatHelp (step_of code CatHelp);;
     for_all_of CatMsg (step_of code CatMsg);;
     for_all_of CatChannel (step_of code CatChannel)).
Proof. reflexivity. Qed.

(** One pass of the loop over a model whose outcome is known. *)
Ltac sweep_pass :=
  rewrite for_all_of_eq; rewrite ?set_instances_ne by done;
  match goal with
  | H : (for_each ?st ?l).1 = _ |- context [(for_each ?st ?l).1] => rewrite H
  end; cbv beta iota.

(** X13: the reset loop visits the models in the order objects, scripts,
    players, help entries, messages, channels and stops at the first model
    in which a reset raises: it ends with that exception, the models after
    it keep their instances exactly as they were, and the models up to it
    hold what their own pass left. *)
Theorem reset_loop_stops_at_first_failure
    (code : Code) (db : Database) (before : list category) (cat : category)
    (after : list category) (e : exn) :
  sweep_order = before ++ cat :: after →
  Forall (λ c, (for_each (step_of code c) (db c)).1 = Ok tt) before →
  (for_each (step_of code cat) (db cat)).1 = Raise e →
  (run_reset_loop code db).1 = Raise e
  ∧ Forall (λ c, (run_reset_loop code db).2 c = db c) after
  ∧ Forall (λ c, (run_reset_loop code db).2 c = (for_each (step_of code c) (db c)).2)
           (before ++ [cat]).
Proof.
  intros Horder Hbefore Hfail. unfold sweep_order in Horder.
  rewrite run_reset_loop_steps. unfold mbind, St_bind.
  do 6 (destruct before as [|? before]; simplify_eq/=;
        [decompose_Forall_hyps; shelve |]).
  { by destruct before. }
  Unshelve.
  all: repeat sweep_pass.
  all: cbn [fst snd]; split; [done |].
  all: split; repeat constructor;
         rewrite ?set_instances_eq, ?set_instances_ne by done; done.
Qed.

(** X14: within one model the loop handles the instances in order and
    stops at the first one whose reset raises: the instances before it
    have been reset, the failing one is left as its reset left it, and the
    instances after it are not touched. *)
Theorem comprehension_stops_at_first_failure
    (step : St Entity unit) (done_before : list Entity) (o o' : Entity)
    (not_reached : list Entity) (e : exn) :
  Forall (λ x, (step x).1 = Ok tt) done_before →
  step o = (Raise e, o') →
  for_each step (done_before ++ o :: not_reached)
  = (Raise e, List.map (λ x, (step x).2) done_before ++ o' :: not_reached).
Proof.
  intros Hbefore Ho. induction Hbefore as [|x l Hx Hl IH]; simpl.
  - by rewrite Ho.
  - destruct (step x) as [[[]|e0] x']; simpl in *; [| done].
    by rewrite IH.
Qed.

Lemma comprehension_stops_at_first_failure_witness :
  for_each (step_of failing_code CatObject) ([limbo] ++ sword :: [ticker])
  = (Raise (Exn "ImportError"),
     List.map (λ x, (step_of failing_code CatObject x).2) [limbo]
       ++ mkEntity (durable sword) ["cmdsets.wield@new"] ["stale"] :: [ticker]).
Proof.
  apply (comprehension_stops_at_first_failure (step_of failing_code CatObject)
           [limbo] sword (mkEntity (durable sword) ["cmdsets.wield@new"] ["stale"])
           [ticker] (Exn "ImportError")).
  - repeat constructor.
  - reflexivity.
Defined.

Lemma reset_loop_stops_at_first_failure_witness :
  (run_reset_loop failing_code sample_db).1 = Raise (Exn "ImportError")
  ∧ Forall (λ c, (run_reset_loop failing_code sample_db).2 c = sample_db c)
           [CatScript; CatPlayer; CatHelp; CatMsg; CatChannel]
  ∧ Forall (λ c, (run_reset_loop failing_code sample_db).2 c
                 = (for_each (step_of failing_code c) (sample_db c)).2)
           ([] ++ [CatObject]).
Proof.
  apply (reset_loop_stops_at_first_failure failing_code sample_db [] CatObject
           [CatScript; CatPlayer; CatHelp; CatMsg; CatChannel] (Exn "ImportError")).
  - reflexivity.
  - constructor.
  - reflexivity.
Defined.

(** * Further properties of the cycle *)

Lemma cemit_info_events env message tr :
  delivers env → cemit_info env message tr = (Ok tt, tr ++ report_events env message).
Proof.
  unfold delivers, report_events. intros Hdel.
  destruct (lookup_infochan env) as [|v|c] eqn:Hlook.
  - apply cemit_info_unresolved. by rewrite Hlook.
  - apply cemit_info_unresolved. by rewrite Hlook.
  - by rewrite (cemit_info_resolved env c message tr Hlook), Hdel.
Qed.

(** X15: when no module was modified and every collaborator returns, the
    cycle still runs in full: it announces the cleaning, cleans the
    AppCache, reports that nothing was reloaded without any warning and
    without calling the re-import, runs the three cache steps, announces
    the reset loop and schedules it. *)
Theorem nothing_modified_cycle (env : Env) (scripts : list ScriptDB) (tr : list event) :
  delivers env →
  get_all_scripts env = Ok scripts →
  reimport_modified env = Ok [] →
  typeclassmodels_reset env = Ok tt → exithandler_clear env = Ok tt →
  channelhandler_update env = Ok tt → run_async env = Ok tt →
  reload_modules env tr
  = (Ok tt,
     tr ++ report_events env (dashes 50 +:+ nl +:+ " Cleaning module caches ...")
        ++ [AppCacheCleaned]
        ++ report_events env " Nothing was reloaded."
        ++ [TypeclassReset; ExitClear; ChannelUpdate]
        ++ report_events env " Starting asynchronous object reset loop ..."
        ++ [RunAsync]).
Proof.
  intros Hdel Hscripts Hmod Hreset Hexit Hchan Hasync.
  unfold reload_modules, cache_cascade, when, mbind, St_bind, lift, call, mret, St_ret.
  rewrite Hscripts, Hmod, Hreset, Hexit, Hchan, Hasync.
  rewrite !(cemit_info_events env) by done. simpl.
  rewrite !(cemit_info_events env) by done.
  by rewrite <- !app_assoc.
Qed.

Lemma nothing_modified_cycle_witness :
  reload_modules idle_env []
  = (Ok tt,
     [] ++ report_events idle_env (dashes 50 +:+ nl +:+ " Cleaning module caches ...")
        ++ [AppCacheCleaned]
        ++ report_events idle_env " Nothing was reloaded."
        ++ [TypeclassReset; ExitClear; ChannelUpdate]
        ++ report_events idle_env " Starting asynchronous object reset loop ..."
        ++ [RunAsync]).
Proof.
  apply (nothing_modified_cycle idle_env sample_scripts []); reflexivity.
Defined.

(** X16: with a reporter that can finish its calls, reload_scripts
    announces the validation, calls it once with the selector and mode it
    was given, and then logs one summary naming the two counts in decimal;
    when the validation raises, the call ends with that exception and no
    summary is written. *)
Theorem reload_scripts_trace
    (env : Env) (sel : selector) (init_mode : bool) (tr : list event) :
  delivers env →
  reload_scripts env sel init_mode tr
  = match validate env sel init_mode with
    | Ok (nr_started, nr_stopped) =>
        (Ok tt,
         tr ++ report_events env " Validating scripts ..."
            ++ [ValidateScripts]
            ++ report_events env
                 (" Started " +:+ str_int nr_started +:+ " script(s). Stopped "
                  +:+ str_int nr_stopped +:+ " invalid script(s)."))
    | Raise e =>
        (Raise e, tr ++ report_events env " Validating scripts ..." ++ [ValidateScripts])
    end.
Proof.
  intros Hdel. unfold reload_scripts, mbind, St_bind, call.
  rewrite (cemit_info_events env) by done.
  destruct (validate env sel init_mode) as [[nr_started nr_stopped] | e].
  - rewrite (cemit_info_events env) by done. simpl. by rewrite <- !app_assoc.
  - by rewrite <- !app_assoc.
Qed.

Lemma reload_scripts_trace_witness :
  reload_scripts idle_env (mkSelector None None None None) true []
  = (Ok tt,
     [LogInfo " Validating scripts ...";
      LogInfo "[NO MUDINFO CHANNEL]:  Validating scripts ...";
      ValidateScripts;
      LogInfo " Started 3 script(s). Stopped 1 invalid script(s).";
      LogInfo "[NO MUDINFO CHANNEL]:  Started 3 script(s). Stopped 1 invalid script(s)."]).
Proof.
  apply (reload_scripts_trace idle_env (mkSelector None None None None) true []).
  reflexivity.
Defined.

(** X17: reload_commands empties the command-set cache first and in every
    environment, then logs its message; this is so even when the report to
    the channel raises, and the cache assignment is the only call it makes
    outside the reporter. *)
Theorem reload_commands_clears_first (env : Env) (tr : list event) :
  ∃ rest,
    (reload_commands env tr).2
    = tr ++ CmdsetsCleared
         :: LogInfo (" Cleaned cmdset cache." +:+ nl +:+ dashes 50) :: rest
    ∧ collab_calls rest = []
    ∧ (length rest <= 1)%nat.
Proof.
  unfold reload_commands, mbind, St_bind, call.
  destruct (cemit_info_any env (" Cleaned cmdset cache." +:+ nl +:+ dashes 50)
              (tr ++ [CmdsetsCleared])) as (r & rest & -> & Hcalls & Hlen).
  exists rest. rewrite <- app_assoc. auto.
Qed.

(** * Further properties of the texts *)

Lemma nonempty_append a b : nonempty_str a = true → nonempty_str (a +:+ b) = true.
Proof. by destruct a. Qed.

(** X18: the warning of lines 75-88 is empty exactly when no module was
    rejected, in which case nothing is reported; otherwise it names the
    rejected modules: it contains the printed unsafe-dir-modified list when
    that list is not empty, and the printed unsafe-mod-modified list when
    that one is not empty. *)
Theorem warning_names_rejected (unsafe_dir unsafe_mod : list string) :
  forallb percent_free unsafe_dir = true →
  ∃ text,
    warning_text unsafe_dir unsafe_mod = Ok text
    ∧ (nonempty_str text = false ↔ unsafe_dir = [] ∧ unsafe_mod = [])
    ∧ (unsafe_dir ≠ [] → ∃ a b, text = a +:+ str_list unsafe_dir +:+ b)
    ∧ (unsafe_mod ≠ [] → ∃ a b, text = a +:+ str_list unsafe_mod +:+ b).
Proof.
  intros Hfree. apply str_list_percent in Hfree.
  unfold warning_text. cbv zeta.
  destruct unsafe_dir as [|u unsafe_dir], unsafe_mod as [|v unsafe_mod];
    cbn [nonempty_list orb].
  - exists "". split; [reflexivity |]. split; [split; [done | reflexivity] |]. 
    split; intros H; by destruct H.
  - generalize (str_list (v :: unsafe_mod)). intros b.
    unfold mbind, result_bind. format_closed.
    eexists. split; [reflexivity |].
    split; [split; [intros H; rewrite nonempty_append in H by reflexivity; discriminate
                   | intros [_ H]; discriminate] |].
    split; [intros H; by destruct H | intros _; eexists _, _; reflexivity].
  - generalize dependent (str_list (u :: unsafe_dir)). intros a Ha.
    unfold mbind, result_bind. format_closed.
    eexists. split; [reflexivity |].
    split; [split; [intros H; rewrite nonempty_append in H by reflexivity; discriminate
                   | intros [H _]; discriminate] |].
    split; [intros _; eexists _, _; reflexivity | intros H; by destruct H].
  - generalize dependent (str_list (u :: unsafe_dir)). intros a Ha.
    generalize (str_list (v :: unsafe_mod)). intros b.
    unfold mbind, result_bind. format_closed.
    unfold py_format. rewrite !append_assoc.
    match goal with |- context [format_aux (?P +:+ a +:+ ?T) (Some b)] =>
      rewrite (format_aux_literal P) by reflexivity;
      rewrite (format_aux_literal a) by done;
      change (format_aux T (Some b)) with (py_format T b)
    end.
    format_closed. cbn [fmap result_fmap].
    eexists. split; [reflexivity |].
    split; [split; [intros H; rewrite nonempty_append in H by reflexivity; discriminate
                   | intros [H _]; discriminate] |].
    split; intros _.
    + eexists _, _; reflexivity.
    + match goal with
      | |- ∃ _ _, ?P +:+ a +:+ ?p +:+ b +:+ ?q = _ =>
          exists (P +:+ a +:+ p), q; by rewrite !append_assoc
      end.
Qed.

Lemma warning_names_rejected_witness :
  ∃ text,
    warning_text ["src.scripts.scripts"] ["game.objects.monster"] = Ok text
    ∧ (nonempty_str text = false
       ↔ ["src.scripts.scripts"] = [] ∧ ["game.objects.monster"] = [])
    ∧ (["src.scripts.scripts"] ≠ [] →
       ∃ a b, text = a +:+ str_list ["src.scripts.scripts"] +:+ b)
    ∧ (["game.objects.monster"] ≠ [] →
       ∃ a b, text = a +:+ str_list ["game.objects.monster"] +:+ b).
Proof.
  apply (warning_names_rejected ["src.scripts.scripts"] ["game.objects.monster"]).
  reflexivity.
Defined.

Lemma plain_char_repr c : plain_char c = true → repr_char "'" c = String c "".
Proof.
  destruct c as [[] [] [] [] [] [] [] []]; vm_compute; intros H;
    first [discriminate H | reflexivity].
Qed.

Lemma plain_char_no_quote c : plain_char c = true → Ascii.eqb c "'" = false.
Proof.
  unfold plain_char. intros H.
  destruct (Ascii.eqb c "'"); [| done].
  by rewrite !andb_false_r, ?andb_false_l in H.
Qed.

Lemma plain_cons c s : plain (String c s) = plain_char c && plain s.
Proof. reflexivity. Qed.

Lemma plain_no_quote s : plain s = true → has_char "'" s = false.
Proof.
  induction s as [|c s IH]; [done |].
  rewrite plain_cons, has_char_cons. intros H. apply andb_prop in H as [Hc Hs].
  by rewrite plain_char_no_quote, IH.
Qed.

Lemma plain_repr_body s : plain s = true → repr_body "'" s = s.
Proof.
  induction s as [|c s IH]; [done |].
  rewrite plain_cons. intros H. apply andb_prop in H as [Hc Hs].
  cbn [repr_body]. by rewrite plain_char_repr, IH.
Qed.

Lemma py_repr_plain s : plain s = true → py_repr s = "'" +:+ s +:+ "'".
Proof.
  intros Hs. unfold py_repr, repr_quote.
  rewrite plain_no_quote by done. cbn [andb]. by rewrite plain_repr_body.
Qed.

(** X19: module names made of printable characters other than quotes and
    the backslash are printed as they are, each in single quotes, separated
    by a comma and a space, between square brackets; the announcement of
    line 93 is its fixed text around that list. *)
Theorem reload_announcement_text (names : list string) :
  forallb plain names = true →
  str_list names
  = "[" +:+ String.concat ", " (List.map (λ n, "'" +:+ n +:+ "'") names) +:+ "]"
  ∧ py_format (" Reloading module(s):" +:+ nl +:+ "  %s ...") (str_list names)
    = Ok (" Reloading module(s):" +:+ nl +:+ "  " +:+ str_list names +:+ " ...").
Proof.
  intros Hplain. split.
  - unfold str_list. f_equal. f_equal. f_equal. apply map_ext_in. intros n Hn.
    apply py_repr_plain. rewrite forallb_forall in Hplain. by apply Hplain.
  - format_closed. rewrite <- !append_assoc. reflexivity.
Qed.

Lemma reload_announcement_text_witness :
  str_list ["game.commands.default.look"; "src.commands.default.help"]
  = "[" +:+ String.concat ", "
              (List.map (λ n, "'" +:+ n +:+ "'")
                 ["game.commands.default.look"; "src.commands.default.help"]) +:+ "]"
  ∧ py_format (" Reloading module(s):" +:+ nl +:+ "  %s ...")
      (str_list ["game.commands.default.look"; "src.commands.default.help"])
    = Ok (" Reloading module(s):" +:+ nl +:+ "  "
          +:+ str_list ["game.commands.default.look"; "src.commands.default.help"]
          +:+ " ...").
Proof.
  apply (reload_announcement_text
           ["game.commands.default.look"; "src.commands.default.help"]).
  reflexivity.
Defined.
